(** * RemoteLogger: telemetry compaction and durable counters

    A shallow embedding of [libraries/RemoteLogger/RemoteLogger.cpp]
    (library v0.2): the CSV bookkeeping on the SD card ([write_to_csv],
    [increment_samples], [num_samples], [num_hours], the two resets) and the
    message builder [prep_msg] with its helpers ([count_params],
    [produce_csv_setting], [populate_header_index], [find_key]).
    [v0.5_libraried/library_v0.2/RemoteLogger.cpp] has the same
    [write_to_csv] and none of the other functions.
    The file also embeds [wipe_files], the Hydros 21 reading
    [sample_hydros_M] and, over a board state, the functions that drive the
    LED, the modem and the clock ([blinky], [tpl_done], [send_msg],
    [irid_test], [sync_clock]).

    Conventions of the embedding.
    - A C++ [int] is a [Z].  Every integer the code computes is a position in
      a string, a row count or a column number, so it stays far inside the
      32-bit range on the 32 KB board and no wrap-around occurs; the one
      signed/unsigned conversion the code relies on ([String::substring] and
      [String::indexOf] take [unsigned int]) is written out in [to_unsigned].
    - An Arduino [String] is a [string].
    - [Serial] tracing has no effect on the values computed and is left out.
    - [count_params], [populate_header_index] and [prep_msg] hold steps that
      C++ leaves undefined: a [delete] of an object no [new] has made, a
      write through a pointer that was never assigned, array reads that
      nothing checks.  These functions are given twice.  [Strict] is the
      call in the C++ abstract machine, which either returns or is undefined
      at its first such step; what a call does is stated there.  The
      definitions of [Section Logger] follow the same statements on a board
      that checks nothing, to say what the loops compute: the [delete]s are
      left out, the header index has its cells, and an array read [a[i]] is
      [peek], which inside the array yields the element and outside it what
      the memory holds there, a parameter ([beyond]). *)

From Stdlib Require Import ZArith String Ascii List Lia Bool.
From Stdlib Require Import Decimal DecimalString QArith Qround.
From stdpp Require Import base tactics option list gmap strings.

Local Open Scope string_scope.
Local Open Scope Z_scope.

(** ** Arduino [String] *)

Module WString.

Definition len (s : string) : Z := Z.of_nat (String.length s).

(** Arguments declared [unsigned int] receive an [int]. *)
Definition to_unsigned (i : Z) : Z := if i <? 0 then i + 2 ^ 32 else i.

Fixpoint skip (n : nat) (s : string) : string :=
  match n, s with
  | O, _ => s
  | S _, EmptyString => EmptyString
  | S n', String _ s' => skip n' s'
  end.

Fixpoint keep (n : nat) (s : string) : string :=
  match n, s with
  | O, _ => EmptyString
  | S _, EmptyString => EmptyString
  | S n', String c s' => String c (keep n' s')
  end.

(** [strstr]: position of the first occurrence of [needle] in [s], where
    [s] starts at position [pos] of the whole buffer; [-1] when absent. *)
Fixpoint strstr (needle s : string) (pos : Z) : Z :=
  if String.prefix needle s then pos
  else match s with
       | EmptyString => -1
       | String _ s' => strstr needle s' (pos + 1)
       end.

(** [String::indexOf(const String &s2, unsigned int fromIndex)] *)
Definition indexOf (s2 : string) (fromIndex : Z) (s : string) : Z :=
  let from := to_unsigned fromIndex in
  if len s <=? from then -1
  else strstr s2 (skip (Z.to_nat from) s) from.

(** [String::substring(unsigned int left, unsigned int right)] *)
Definition substring (left right : Z) (s : string) : string :=
  let l := to_unsigned left in
  let r := to_unsigned right in
  let '(l, r) := if r <? l then (r, l) else (l, r) in
  if len s <=? l then EmptyString
  else
    let r := if len s <? r then len s else r in
    keep (Z.to_nat (r - l)) (skip (Z.to_nat l) s).

(** [String::substring(unsigned int left)] *)
Definition substring_from (left : Z) (s : string) : string :=
  substring left (len s) s.

(** [String(long)]: the decimal digits, with a leading minus sign for a
    negative number. *)
Definition of_long (n : Z) : string := NilZero.string_of_int (Z.to_int n).

(** [String::charAt(unsigned int loc)]: the character at [loc], and the
    character 0 outside the string. *)
Definition charAt (loc : Z) (s : string) : ascii :=
  let loc := to_unsigned loc in
  if len s <=? loc then Ascii.zero
  else match String.get (Z.to_nat loc) s with
       | Some c => c
       | None => Ascii.zero
       end.

Fixpoint put (n : nat) (c : ascii) (s : string) : string :=
  match s, n with
  | EmptyString, _ => EmptyString
  | String _ s', O => String c s'
  | String a s', S n' => String a (put n' c s')
  end.

(** [String::setCharAt(unsigned int loc, char c)]: nothing happens outside
    the string. *)
Definition setCharAt (loc : Z) (c : ascii) (s : string) : string :=
  let loc := to_unsigned loc in
  if loc <? len s then put (Z.to_nat loc) c s else s.

End WString.

(** An array read without bounds check. *)
Definition peek {A : Type} (beyond : Z -> A) (a : list A) (i : Z) : A :=
  if (0 <=? i) && (i <? Z.of_nat (length a))
  then nth (Z.to_nat i) a (beyond i)
  else beyond i.

(** An array write; a write outside the array is not seen by any later read
    of the array itself. *)
Definition poke {A : Type} (a : list A) (i : Z) (v : A) : list A :=
  if 0 <=? i then <[Z.to_nat i := v]> a else a.

(** ** The SD card

    A file is the list of the lines printed to it (each [println] ends its
    line with CR LF); a printed text is taken to hold no line end of its
    own.  [opens_for_write] records whether
    [SD.open(name, FILE_WRITE)] hands back a usable [File] on this card: the
    code tests exactly that ([if (dataFile)]) and nothing else. *)

Record SDcard := {
  files : gmap string (list string);
  opens_for_write : string -> bool
}.

(** A [File] object: the name of the open file, or the object that tests
    false. *)
Definition File := option string.

Module SD.

Definition exists_ (name : string) (sd : SDcard) : bool :=
  bool_decide (is_Some (files sd !! name)).

Definition remove (name : string) (sd : SDcard) : SDcard :=
  {| files := delete name (files sd);
     opens_for_write := opens_for_write sd |}.

(** [SD.open(name, FILE_WRITE)]: opens at the end of the file and creates
    the file when it is missing. *)
Definition open_write (name : string) (sd : SDcard) : File * SDcard :=
  if opens_for_write sd name then
    (Some name,
     {| files := match files sd !! name with
                 | Some _ => files sd
                 | None => <[name := []]> (files sd)
                 end;
        opens_for_write := opens_for_write sd |})
  else (None, sd).

Definition println (f : File) (line : string) (sd : SDcard) : SDcard :=
  match f with
  | Some name =>
      {| files := <[name := (default [] (files sd !! name) ++ [line])%list]> (files sd);
         opens_for_write := opens_for_write sd |}
  | None => sd
  end.

Definition lines (name : string) (sd : SDcard) : list string :=
  default [] (files sd !! name).

End SD.

(** ** The CSV parser (third-party [CSV_Parser])

    With [has_header] set, the first line of the file gives the column keys
    and every further line is one row of values; [getRowsCount] is the number
    of rows of values, the bound [prep_msg] itself uses for [floatOut[row]].
    A file that cannot be opened leaves the parser empty.  The embedding reads
    a file whose data lines carry one field per column of the format, which
    [write_to_csv] leaves to its caller: the format string is kept and not
    consulted, a row is a line whatever the number of its cells, and no cell
    is quoted.  That is the shape of [/TRACKING.csv], which holds the lines
    [n] and [1] that [increment_samples] prints. *)

Fixpoint split_on (d : ascii) (s : string) : list string :=
  match s with
  | EmptyString => [EmptyString]
  | String c s' =>
      if Ascii.eqb c d then EmptyString :: split_on d s'
      else match split_on d s' with
           | f :: fs => String c f :: fs
           | [] => [String c EmptyString]
           end
  end.

Record CSV_Parser := {
  fmt : string;
  has_header : bool;
  delimiter : ascii;
  keys : list string;
  values : list (list string)
}.

Module CSV.

Definition new (fmt : string) (has_header : bool) (delimiter : ascii) : CSV_Parser :=
  {| fmt := fmt; has_header := has_header; delimiter := delimiter;
     keys := []; values := [] |}.

Definition readSDfile (name : string) (sd : SDcard) (cp : CSV_Parser) : CSV_Parser :=
  match files sd !! name with
  | None => cp
  | Some ls =>
      let fields := map (split_on (delimiter cp)) ls in
      {| fmt := fmt cp; has_header := has_header cp; delimiter := delimiter cp;
         keys := if has_header cp then List.concat (firstn 1 fields) else [];
         values := if has_header cp then tail fields else fields |}
  end.

Definition getRowsCount (cp : CSV_Parser) : Z := Z.of_nat (length (values cp)).

(** [cp[column]] for a column of format [s]: the texts. *)
Definition strings (cp : CSV_Parser) (column : Z) : list string :=
  map (fun row => nth (Z.to_nat column) row EmptyString) (values cp).

End CSV.

(** ** Numbers

    [float] arithmetic is kept abstract: the text-to-[float] conversion of
    the parser, the product of a value and a multiplier, and Arduino's
    [round], the macro [((x)>=0?(long)((x)+0.5):(long)((x)-0.5))], which
    yields a [long]. *)

Class Float := {
  float : Type;
  parse_float : string -> float;
  fmul : float -> float -> float;
  round : float -> Z
}.

(** The header dictionary declared in [RemoteLogger.h]: three parallel
    tables of [TOTAL_KEYS] entries, the column names, their one-letter codes
    and their multipliers.  The tables are parameters of the embedding. *)
Record Dictionary `{Float} := {
  HEADERS : list string;
  LETTERS : list ascii;
  MULTIPLIERS : list float
}.

(** What the unchecked reads find outside their arrays. *)
Record Memory `{Float} := {
  uninitialised : Z;
  beyond_headerIndex : Z -> Z;
  beyond_LETTERS : Z -> ascii;
  beyond_MULTIPLIERS : Z -> float;
  beyond_datetimes : Z -> string;
  beyond_floats : Z -> float
}.

Record RemoteLogger := { myHeader : string }.

Section Logger.

Context `{Float} (dict : Dictionary) (mem : Memory).

(** The size the three tables are declared with. *)
Definition TOTAL_KEYS : Z := Z.of_nat (length (HEADERS dict)).

(** [cp[column]] for a column of format [f]. *)
Definition floats (cp : CSV_Parser) (column : Z) : list float :=
  map parse_float (CSV.strings cp column).

(** *** Basic unit functions *)

Definition write_to_csv (header datastring_for_csv outname : string)
    (sd : SDcard) : SDcard :=
  if negb (SD.exists_ outname sd) then
    let '(dataFile, sd) := SD.open_write outname sd in
    match dataFile with
    | Some _ =>
        let sd := SD.println dataFile header sd in
        SD.println dataFile datastring_for_csv sd
    | None => sd
    end
  else
    let '(dataFile, sd) := SD.open_write outname sd in
    match dataFile with
    | Some _ => SD.println dataFile datastring_for_csv sd
    | None => sd
    end.

Definition wipe_files (sd : SDcard) : SDcard :=
  SD.remove "/HOURLY.csv" (SD.remove "/DATA.csv" (SD.remove "/TRACKING.csv" sd)).

(** *** Private helpers *)

Fixpoint count_params_loop (fuel : nat) (myHeader : string) (ctr index : Z) : Z :=
  if index =? -1 then ctr
  else match fuel with
       | O => ctr
       | S fuel' =>
           let ctr := ctr + 1 in
           let prevIndex := index in
           count_params_loop fuel' myHeader ctr
             (WString.indexOf "," (prevIndex + 1) myHeader)
       end.

(** The [while] loop moves [index] strictly to the right inside the header,
    so [length myHeader] rounds are enough (see [count_params_loop_spec]).
    This is the count the function holds when it reaches [delete &delim;];
    the call in the abstract machine is [Strict.count_params]. *)
Definition count_params (this : RemoteLogger) : Z :=
  if WString.len (myHeader this) <? 1 then 0
  else count_params_loop (String.length (myHeader this)) (myHeader this) 1
         (WString.indexOf "," 0 (myHeader this)).

Fixpoint produce_csv_setting_loop (n : nat) (setting : string) : string :=
  match n with
  | O => setting
  | S n' => produce_csv_setting_loop n' (setting ++ "f")
  end.

Definition produce_csv_setting (n : Z) : string :=
  produce_csv_setting_loop (Z.to_nat (n - 1)) "s".

(** [for (int i = 0; i < TOTAL_KEYS; i++)] over [HEADERS], seen from entry
    [i] on. *)
Fixpoint find_key_loop (i : Z) (headers : list string) (key : string) : Z :=
  match headers with
  | [] => -1
  | h :: headers' =>
      if String.eqb h key then i else find_key_loop (i + 1) headers' key
  end.

Definition find_key (key : string) : Z := find_key_loop 0 (HEADERS dict) key.

(** The [for] loop of [populate_header_index]: [n] rounds from [column],
    returning the array and [prevIndex]. *)
Fixpoint populate_loop (n : nat) (myHeader : string) (column prevIndex : Z)
    (headerIndex : list Z) : list Z * Z :=
  match n with
  | O => (headerIndex, prevIndex)
  | S n' =>
      let index := WString.indexOf "," (prevIndex + 1) myHeader in
      let columnName := WString.substring (prevIndex + 1) index myHeader in
      let headerIndex := poke headerIndex column (find_key columnName) in
      populate_loop n' myHeader (column + 1) index headerIndex
  end.

Definition populate_header_index (this : RemoteLogger) (headerIndex : list Z)
    (num_params : Z) : list Z :=
  let '(headerIndex, prevIndex) :=
    populate_loop (Z.to_nat (num_params - 1)) (myHeader this) 0 (-1) headerIndex in
  let columnName := WString.substring_from (prevIndex + 1) (myHeader this) in
  poke headerIndex (num_params - 1) (find_key columnName).

(** *** Tracking *)

Definition increment_samples (sd : SDcard) : SDcard :=
  write_to_csv "n" "1" "/TRACKING.csv" sd.

Definition num_samples (sd : SDcard) : Z :=
  let cp := CSV.new "s" true "," in
  let cp := CSV.readSDfile "/TRACKING.csv" sd cp in
  CSV.getRowsCount cp - 1.

Definition reset_sample_counter (sd : SDcard) : SDcard :=
  SD.remove "/TRACKING.csv" sd.

Definition reset_hourly (sd : SDcard) : SDcard :=
  SD.remove "/HOURLY.csv" sd.

(** *** Telemetry *)

(** The source declares [headerIndex] without storage; the embedding gives
    it the [num_params] cells the code reads and writes. *)
Definition new_headerIndex (num_params : Z) : list Z :=
  replicate (Z.to_nat num_params) (uninitialised mem).

Definition scaled (floatOut : list float) (row : Z) (headerIndex : list Z)
    (column : Z) : string :=
  WString.of_long
    (round (fmul (peek (beyond_floats mem) floatOut row)
                 (peek (beyond_MULTIPLIERS mem) (MULTIPLIERS dict)
                       (peek (beyond_headerIndex mem) headerIndex column)))).

(** The string the statements of [prep_msg] build on a board that checks
    nothing.  The call in the abstract machine is [Strict.prep_msg]. *)
Definition prep_msg (this : RemoteLogger) (sd : SDcard) : string :=
  let num_params := count_params this in
  let csv_setting := produce_csv_setting num_params in
  let cp := CSV.new csv_setting true "," in
  let cp := CSV.readSDfile "/HOURLY.csv" sd cp in
  let num_rows := CSV.getRowsCount cp in
  let headerIndex := new_headerIndex num_params in
  let headerIndex := populate_header_index this headerIndex num_params in
  (* generate the letters *)
  let datastring_msg := EmptyString in
  let datastring_msg :=
    fold_left
      (fun datastring_msg i =>
         datastring_msg ++
           String (peek (beyond_LETTERS mem) (LETTERS dict)
                        (peek (beyond_headerIndex mem) headerIndex i)) EmptyString)
      (seqZ 0 num_params) datastring_msg in
  let datastring_msg := datastring_msg ++ ":" in
  let column := 0 in
  (* datetime (of first measurement in message) *)
  let out_datetimes := CSV.strings cp column in
  let first := peek (beyond_datetimes mem) out_datetimes 0 in
  let datastring_msg := datastring_msg ++ WString.substring 2 4 first in
  let datastring_msg := datastring_msg ++ WString.substring 5 7 first in
  let datastring_msg := datastring_msg ++ WString.substring 8 10 first in
  let datastring_msg := datastring_msg ++ WString.substring 11 13 first in
  let datastring_msg := datastring_msg ++ ":" in
  let column := column + 1 in
  (* battery voltage (most recent) *)
  let floatOut := floats cp column in
  let datastring_msg :=
    datastring_msg ++ scaled floatOut (num_rows - 1) headerIndex column in
  let datastring_msg := datastring_msg ++ ":" in
  let column := column + 1 in
  (* free memory (most recent) *)
  let floatOut := floats cp column in
  let datastring_msg :=
    datastring_msg ++ scaled floatOut (num_rows - 1) headerIndex column in
  let datastring_msg := datastring_msg ++ ":" in
  (* sampled data *)
  fold_left
    (fun datastring_msg row =>
       fold_left
         (fun datastring_msg column =>
            let floatOut := floats cp column in
            let datastring_msg :=
              datastring_msg ++ scaled floatOut row headerIndex column in
            if negb (column =? num_params - 1)
            then datastring_msg ++ ","
            else datastring_msg ++ ":")
         (seqZ 3 (num_params - 3)) datastring_msg)
    (seqZ 0 num_rows) datastring_msg.

End Logger.

(** ** The calls in the C++ abstract machine

    The definitions of [count_params], [populate_header_index] and
    [prep_msg] above follow the statements of the source one by one and say
    what each loop computes on a board that checks nothing.  The C++
    abstract machine gives such a call no result: [count_params] ends in
    [delete &delim;], a [delete] of an automatic [String]; [prep_msg]
    declares [int **headerIndex;], never assigns it and hands it to
    [populate_header_index], which writes through it; and the array reads
    are unchecked.  [Strict] embeds the same statements with these steps
    made explicit: a call either returns a value or is undefined at its
    first such step. *)

Module Strict.

Inductive fault :=
| delete_not_new        (* [delete] of an object no [new] has made *)
| unassigned_pointer    (* access through a pointer that never got a value *)
| outside_array.        (* element access outside the array *)

Inductive outcome (A : Type) :=
| Returns (a : A)
| Undefined (f : fault).

Arguments Returns {A} a.
Arguments Undefined {A} f.

#[export] Instance outcome_ret : MRet outcome := @Returns.

#[export] Instance outcome_bind : MBind outcome :=
  fun A B k c => match c with Returns a => k a | Undefined f => Undefined f end.

(** What a pointer variable holds: nothing yet, or the address of storage,
    given by what the storage holds. *)
Inductive pointer (A : Type) :=
| unassigned
| storage (cells : A).

Arguments unassigned {A}.
Arguments storage {A} cells.

(** [a[i]] *)
Definition elem {A : Type} (a : list A) (i : Z) : outcome A :=
  if 0 <=? i then
    match a !! Z.to_nat i with
    | Some x => Returns x
    | None => Undefined outside_array
    end
  else Undefined outside_array.

(** [delete p;]: the source holds no [new], so none of its four [delete]
    statements has an operand that [new] made: [&delim] is the address of an
    automatic [String], [out_datetimes] and [floatOut] are arrays the parser
    owns, [headerIndex] was never assigned. *)
Definition delete_ : outcome unit := Undefined delete_not_new.

(** A [for] loop over [l], left at its first undefined step. *)
Fixpoint for_each {A B : Type} (f : B -> A -> outcome B) (l : list A) (b : B)
    : outcome B :=
  match l with
  | [] => Returns b
  | a :: l' => b' ← f b a; for_each f l' b'
  end.

(** [int **headerIndex]: a pointer to cells that each point to an [int].
    Storage in which every cell points to an [int] of its own is given by
    the list of those [int]s. *)
Definition index_pointer : Type := pointer (list Z).

(** [*headerIndex[column]] read *)
Definition load (headerIndex : index_pointer) (column : Z) : outcome Z :=
  match headerIndex with
  | unassigned => Undefined unassigned_pointer
  | storage cells => elem cells column
  end.

(** [*headerIndex[column] = value;] *)
Definition store (headerIndex : index_pointer) (column value : Z)
    : outcome index_pointer :=
  match headerIndex with
  | unassigned => Undefined unassigned_pointer
  | storage cells =>
      _ ← elem cells column;
      Returns (storage (<[Z.to_nat column := value]> cells))
  end.

Section Calls.

Context `{Float} (dict : Dictionary).

Definition count_params (this : RemoteLogger) : outcome Z :=
  if WString.len (myHeader this) <? 1 then Returns 0
  else
    let ctr :=
      count_params_loop (String.length (myHeader this)) (myHeader this) 1
        (WString.indexOf "," 0 (myHeader this)) in
    _ ← delete_;                 (* delete &delim; *)
    Returns ctr.

Fixpoint populate_loop (n : nat) (myHeader : string) (column prevIndex : Z)
    (headerIndex : index_pointer) : outcome (index_pointer * Z) :=
  match n with
  | O => Returns (headerIndex, prevIndex)
  | S n' =>
      let index := WString.indexOf "," (prevIndex + 1) myHeader in
      let columnName := WString.substring (prevIndex + 1) index myHeader in
      headerIndex ← store headerIndex column (find_key dict columnName);
      populate_loop n' myHeader (column + 1) index headerIndex
  end.

Definition populate_header_index (this : RemoteLogger)
    (headerIndex : index_pointer) (num_params : Z) : outcome index_pointer :=
  r ← populate_loop (Z.to_nat (num_params - 1)) (myHeader this) 0 (-1) headerIndex;
  let headerIndex := fst r in
  let prevIndex := snd r in
  let columnName := WString.substring_from (prevIndex + 1) (myHeader this) in
  store headerIndex (num_params - 1) (find_key dict columnName).

Definition num_hours (this : RemoteLogger) (sd : SDcard) : outcome Z :=
  num_params ← count_params this;
  let csv_setting := produce_csv_setting num_params in
  let cp := CSV.new csv_setting true "," in
  let cp := CSV.readSDfile "/HOURLY.csv" sd cp in
  Returns (CSV.getRowsCount cp).

(** The statements of [prep_msg], block by block. *)

(** [for(int i = 0; i < num_params; i++){ datastring_msg += LETTERS[*headerIndex[i]]; }] *)
Definition letters (headerIndex : index_pointer) (num_params : Z)
    (datastring_msg : string) : outcome string :=
  for_each
    (fun datastring_msg i =>
       k ← load headerIndex i;
       letter ← elem (LETTERS dict) k;
       Returns (datastring_msg ++ String letter EmptyString))
    (seqZ 0 num_params) datastring_msg.

(** The four [datastring_msg += String(out_datetimes[0]).substring(..)]. *)
Definition datetime (out_datetimes : list string) (datastring_msg : string)
    : outcome string :=
  first ← elem out_datetimes 0;
  let datastring_msg := datastring_msg ++ WString.substring 2 4 first in
  first ← elem out_datetimes 0;
  let datastring_msg := datastring_msg ++ WString.substring 5 7 first in
  first ← elem out_datetimes 0;
  let datastring_msg := datastring_msg ++ WString.substring 8 10 first in
  first ← elem out_datetimes 0;
  let datastring_msg := datastring_msg ++ WString.substring 11 13 first in
  Returns datastring_msg.

(** [String(round(floatOut[row] * MULTIPLIERS[*headerIndex[column]]))];
    the embedding reads the left factor first; C++ fixes no order, and
    either order meets the same undefined steps. *)
Definition scaled (floatOut : list float) (row : Z) (headerIndex : index_pointer)
    (column : Z) : outcome string :=
  value ← elem floatOut row;
  k ← load headerIndex column;
  multiplier ← elem (MULTIPLIERS dict) k;
  Returns (WString.of_long (round (fmul value multiplier))).

(** The [for] over the rows with its [while] over the columns from 3 on. *)
Definition sampled (cp : CSV_Parser) (num_rows num_params : Z)
    (headerIndex : index_pointer) (datastring_msg : string) : outcome string :=
  for_each
    (fun datastring_msg row =>
       for_each
         (fun datastring_msg column =>
            let floatOut := floats cp column in
            text ← scaled floatOut row headerIndex column;
            let datastring_msg := datastring_msg ++ text in
            Returns (if negb (column =? num_params - 1)
                     then datastring_msg ++ ","
                     else datastring_msg ++ ":"))
         (seqZ 3 (num_params - 3)) datastring_msg)
    (seqZ 0 num_rows) datastring_msg.

Definition prep_msg (this : RemoteLogger) (sd : SDcard) : outcome string :=
  num_params ← count_params this;
  let csv_setting := produce_csv_setting num_params in
  let cp := CSV.new csv_setting true "," in
  let cp := CSV.readSDfile "/HOURLY.csv" sd cp in
  let num_rows := CSV.getRowsCount cp in
  (* int **headerIndex; headerIndex[num_params]; *)
  let headerIndex : index_pointer := unassigned in
  headerIndex ← populate_header_index this headerIndex num_params;
  let datastring_msg := EmptyString in
  datastring_msg ← letters headerIndex num_params datastring_msg;
  let datastring_msg := datastring_msg ++ ":" in
  let column := 0 in
  let out_datetimes := CSV.strings cp column in
  datastring_msg ← datetime out_datetimes datastring_msg;
  let datastring_msg := datastring_msg ++ ":" in
  _ ← delete_;                   (* delete out_datetimes; *)
  let column := column + 1 in
  let floatOut := floats cp column in
  text ← scaled floatOut (num_rows - 1) headerIndex column;
  let datastring_msg := datastring_msg ++ text in
  let datastring_msg := datastring_msg ++ ":" in
  let column := column + 1 in
  let floatOut := floats cp column in
  text ← scaled floatOut (num_rows - 1) headerIndex column;
  let datastring_msg := datastring_msg ++ text in
  let datastring_msg := datastring_msg ++ ":" in
  datastring_msg ← sampled cp num_rows num_params headerIndex datastring_msg;
  _ ← delete_;                   (* delete floatOut; *)
  _ ← delete_;                   (* delete headerIndex; *)
  Returns datastring_msg.

End Calls.

End Strict.

(** ** Sampling the Hydros 21 sensor

    An SDI-12 bus is seen through what the receive loop after
    [sendCommand(cmd)] finds: [answer cmd] is the sequence of characters
    [bus.read()] hands over until [bus.available()] is zero.  The delays
    and [clearBuffer] calls, which act on characters the loops do not read,
    are left out. *)

Record SDI12 := { answer : string -> string }.

(** [while (bus.available()) { char c = bus.read(); if ((c != '\n') && (c != '\r')) sdiResponse += c; }] *)
Fixpoint read_loop (rx : string) (sdiResponse : string) : string :=
  match rx with
  | EmptyString => sdiResponse
  | String c rx' =>
      if negb (Ascii.eqb c "010") && negb (Ascii.eqb c "013")
      then read_loop rx' (sdiResponse ++ String c EmptyString)
      else read_loop rx' sdiResponse
  end.

(** [for (int i = 0; i < sdiResponse.length(); i++)]: [n] rounds from [i];
    [setCharAt] keeps the length, so the bound is the length at entry. *)
Fixpoint replace_loop (n : nat) (i : Z) (sdiResponse : string) : string :=
  match n with
  | O => sdiResponse
  | S n' =>
      let c := WString.charAt i sdiResponse in
      let sdiResponse :=
        if Ascii.eqb c "+" then WString.setCharAt i "," sdiResponse
        else sdiResponse in
      replace_loop n' (i + 1) sdiResponse
  end.

Definition sample_hydros_M (bus : SDI12) (sensor_address : Z) : string :=
  let sdiResponse := EmptyString in
  let myCommand := WString.of_long sensor_address ++ "M!" in
  let sdiResponse := read_loop (answer bus myCommand) sdiResponse in
  let sdiResponse := EmptyString in
  let myCommand := WString.of_long sensor_address ++ "D0!" in
  let sdiResponse := read_loop (answer bus myCommand) sdiResponse in
  let sdiResponse := WString.substring_from 3 sdiResponse in
  let sdiResponse := replace_loop (String.length sdiResponse) 0 sdiResponse in
  let sdiResponse :=
    if String.eqb sdiResponse EmptyString then "-9,-9,-9" else sdiResponse in
  sdiResponse.

(** ** The board: pins, modem and clock

    The functions that drive the LED, the modem and the clock are embedded
    over a board state.  Pin writes and waits are kept as a trace.  The
    modem is seen through the codes it answers: [modem_codes k] is the code
    it gives to the [k]-th call made to it, whatever the call, and
    [modem_times k] the time it hands over when that call asks for one;
    the texts given to [sendSBDText] are kept in [sent].  The clock holds a
    date, which does not move during a call.  Serial tracing, the serial
    port set-up and the power profile are left out. *)

Inductive level := LOW | HIGH.

Inductive io :=
| DigitalWrite (pin : Z) (value : level)
| Delay (ms : Z).

Record tm := {
  tm_year : Z; tm_mon : Z; tm_mday : Z; tm_hour : Z; tm_min : Z; tm_sec : Z
}.

Record DateTime := {
  year : Z; month : Z; day : Z; hour : Z; minute : Z; second : Z
}.

Record Board := {
  trace : list io;
  modem_codes : nat -> Z;
  modem_times : nat -> tm;
  modem_calls : nat;
  sent : list string;
  rtc : DateTime
}.

(** The pin numbers held by the logger object, with their setters. *)
Record Pins := {
  ledPin : Z; vbatPin : Z; tplPin : Z; IridSlpPin : Z; chipSelect : Z
}.

Definition setLedPin (pin : Z) (p : Pins) : Pins :=
  {| ledPin := pin; vbatPin := vbatPin p; tplPin := tplPin p;
     IridSlpPin := IridSlpPin p; chipSelect := chipSelect p |}.
Definition setBattPin (pin : Z) (p : Pins) : Pins :=
  {| ledPin := ledPin p; vbatPin := pin; tplPin := tplPin p;
     IridSlpPin := IridSlpPin p; chipSelect := chipSelect p |}.
Definition setTplPin (pin : Z) (p : Pins) : Pins :=
  {| ledPin := ledPin p; vbatPin := vbatPin p; tplPin := pin;
     IridSlpPin := IridSlpPin p; chipSelect := chipSelect p |}.
Definition setIridSlpPin (pin : Z) (p : Pins) : Pins :=
  {| ledPin := ledPin p; vbatPin := vbatPin p; tplPin := tplPin p;
     IridSlpPin := pin; chipSelect := chipSelect p |}.
Definition setSDSelectPin (pin : Z) (p : Pins) : Pins :=
  {| ledPin := ledPin p; vbatPin := vbatPin p; tplPin := tplPin p;
     IridSlpPin := IridSlpPin p; chipSelect := pin |}.

(** Codes of [IridiumSBD.h]. *)
Definition ISBD_SUCCESS : Z := 0.
Definition ISBD_IS_ASLEEP : Z := 10.

(** Computations on the board. *)
Definition IO (A : Type) : Type := Board -> A * Board.

Definition ret {A} (a : A) : IO A := fun b => (a, b).

Definition bind {A B} (c : IO A) (k : A -> IO B) : IO B :=
  fun b => let '(a, b') := c b in k a b'.

Notation "x <- c ;; k" := (bind c (fun x => k))
  (at level 100, c at next level, right associativity).
Notation "c ;;; k" := (bind c (fun _ => k))
  (at level 100, right associativity).

Definition emit (e : io) : IO unit :=
  fun b => (tt, {| trace := trace b ++ [e]; modem_codes := modem_codes b;
                   modem_times := modem_times b; modem_calls := modem_calls b;
                   sent := sent b; rtc := rtc b |}).

Definition digitalWrite (pin : Z) (value : level) : IO unit :=
  emit (DigitalWrite pin value).

(** [delay(unsigned long ms)] *)
Definition delay (ms : Z) : IO unit := emit (Delay (WString.to_unsigned ms)).

Definition modem_reply : IO (Z * tm) :=
  fun b => ((modem_codes b (modem_calls b), modem_times b (modem_calls b)),
            {| trace := trace b; modem_codes := modem_codes b;
               modem_times := modem_times b; modem_calls := S (modem_calls b);
               sent := sent b; rtc := rtc b |}).

Definition modem_begin : IO Z := r <- modem_reply ;; ret (fst r).

Definition modem_getFirmwareVersion : IO Z := r <- modem_reply ;; ret (fst r).

Definition modem_getSignalQuality : IO Z := r <- modem_reply ;; ret (fst r).

Definition modem_getSystemTime : IO (Z * tm) := modem_reply.

Definition modem_sendSBDText (text : string) : IO Z :=
  r <- modem_reply ;;
  fun b => (fst r, {| trace := trace b; modem_codes := modem_codes b;
                      modem_times := modem_times b; modem_calls := modem_calls b;
                      sent := sent b ++ [text]; rtc := rtc b |}).

Definition rtc_now : IO DateTime := fun b => (rtc b, b).

Definition rtc_adjust (dt : DateTime) : IO unit :=
  fun b => (tt, {| trace := trace b; modem_codes := modem_codes b;
                   modem_times := modem_times b; modem_calls := modem_calls b;
                   sent := sent b; rtc := dt |}).

(** [for (int i = 1; i <= n; i++)]: [k] rounds. *)
Fixpoint blinky_loop (k : nat) (led high_ms low_ms : Z) : IO unit :=
  match k with
  | O => ret tt
  | S k' =>
      digitalWrite led HIGH ;;;
      delay high_ms ;;;
      digitalWrite led LOW ;;;
      delay low_ms ;;;
      blinky_loop k' led high_ms low_ms
  end.

Definition blinky (p : Pins) (n high_ms low_ms btw_ms : Z) : IO unit :=
  blinky_loop (Z.to_nat n) (ledPin p) high_ms low_ms ;;;
  delay btw_ms.

Definition tpl_done (p : Pins) : IO unit :=
  digitalWrite (tplPin p) LOW ;;; delay 50 ;;; digitalWrite (tplPin p) HIGH ;;; delay 50 ;;;
  digitalWrite (tplPin p) LOW ;;; delay 50 ;;; digitalWrite (tplPin p) HIGH ;;; delay 50 ;;;
  digitalWrite (tplPin p) LOW ;;; delay 50 ;;; digitalWrite (tplPin p) HIGH ;;; delay 50 ;;;
  digitalWrite (tplPin p) LOW ;;; delay 50 ;;; digitalWrite (tplPin p) HIGH ;;; delay 50.

Definition sync_clock : IO unit :=
  r <- modem_getSystemTime ;;
  let err_time := fst r in
  let t := snd r in
  if err_time =? ISBD_SUCCESS then
    rtc_adjust {| year := tm_year t + 1900; month := tm_mon t + 1;
                  day := tm_mday t; hour := tm_hour t;
                  minute := tm_min t; second := tm_sec t |}
  else ret tt.

Definition send_msg (p : Pins) (my_msg : string) : IO Z :=
  digitalWrite (IridSlpPin p) HIGH ;;;
  delay 2000 ;;;
  err <- modem_begin ;;
  err <- (if err =? ISBD_IS_ASLEEP then modem_begin else ret err) ;;
  err <- modem_sendSBDText my_msg ;;
  err <- (if negb (err =? ISBD_SUCCESS)
          then (err <- modem_begin ;; modem_sendSBDText my_msg)
          else ret err) ;;
  now1 <- rtc_now ;;
  now2 <- rtc_now ;;
  (if (hour now1 =? 12) && (day now2 mod 5 =? 0) then sync_clock else ret tt) ;;;
  digitalWrite (IridSlpPin p) LOW ;;;
  ret err.

(** [while (n < 10)]: [k] rounds are left; the answer tells whether every
    query gave [ISBD_SUCCESS], the function returning at the first one that
    did not. *)
Fixpoint signal_quality_loop (k : nat) : IO bool :=
  match k with
  | O => ret true
  | S k' =>
      err <- modem_getSignalQuality ;;
      if negb (err =? ISBD_SUCCESS) then ret false
      else delay 1000 ;;; signal_quality_loop k'
  end.

Definition irid_test (p : Pins) (msg : string) : IO unit :=
  digitalWrite (IridSlpPin p) HIGH ;;;
  delay 2000 ;;;
  err <- modem_begin ;;
  if negb (err =? ISBD_SUCCESS) then ret tt
  else
    err <- modem_getFirmwareVersion ;;
    if negb (err =? ISBD_SUCCESS) then ret tt
    else
      ok <- signal_quality_loop 10 ;;
      if negb ok then ret tt
      else
        let msg := "Hello world! " ++ msg in
        err <- modem_sendSBDText msg ;;
        sync_clock.

(** * The specification's vocabulary

    The definitions below do not come from the source: they name what the
    specification talks about (the columns of the schema, the layout of a
    message, the dictionary contract), so that the code can be compared
    with it. *)

(** ** The schema: the header seen as its column names *)

Definition columns (this : RemoteLogger) : list string :=
  match myHeader this with
  | EmptyString => []
  | header => split_on "," header
  end.

(** Where [indexOf] finds the next comma of a header whose part from
    position [p] on is [s]. *)
Definition comma_pos (s : string) (p : Z) : Z :=
  match split_on "," s with
  | f :: _ :: _ => p + WString.len f
  | _ => -1
  end.

(** ** The wire format *)

(** Concatenation of a list of pieces. *)
Definition flat (l : list string) : string := fold_right String.append EmptyString l.

(** The message layout of the specification:
    [<letters>:<YYMMDDHH>:<battery>:<memory>:<row0 comma-values>:...:<rowN comma-values>:] *)
Definition wire (letters timestamp battery memory : string)
    (rows : list (list string)) : string :=
  letters ++ ":" ++ timestamp ++ ":" ++ battery ++ ":" ++ memory ++ ":" ++
  flat (map (fun row => String.concat "," row ++ ":") rows).

(** The four two-character fields cut out of a timestamp. *)
Definition compact (datetime : string) : string :=
  WString.substring 2 4 datetime ++ WString.substring 5 7 datetime ++
  WString.substring 8 10 datetime ++ WString.substring 11 13 datetime.

(** The text of a timestamp in the layout [YYYY-MM-DDTHH:MM:SS]. *)
Definition timestamp (YYYY MM DD hh mm ss : string) : string :=
  YYYY ++ "-" ++ MM ++ "-" ++ DD ++ "T" ++ hh ++ ":" ++ mm ++ ":" ++ ss.

(** ** The dictionary contract, the queue and the letters *)

Section Format.

Context `{Float} (dict : Dictionary) (mem : Memory).

Implicit Types (this : RemoteLogger) (sd : SDcard).

(** The rows of values the parser finds in the queue file. *)
Definition hourly_rows (sd : SDcard) : list (list string) :=
  map (split_on ",") (tail (SD.lines "/HOURLY.csv" sd)).

(** [lookup] is the contract of the specification: a linear scan over the
    table, first exact match wins, and a name that is not in the table is
    not found. *)
Definition lookup (name : string) : option (ascii * float) :=
  match list_find (fun h => h = name) (HEADERS dict) with
  | Some (i, _) =>
      match LETTERS dict !! i, MULTIPLIERS dict !! i with
      | Some code, Some multiplier => Some (code, multiplier)
      | _, _ => None
      end
  | None => None
  end.

Definition letter_of (k : Z) : ascii :=
  peek (beyond_LETTERS mem) (LETTERS dict) k.

Definition header_index (this : RemoteLogger) : list Z :=
  populate_header_index dict this (new_headerIndex mem (count_params this))
    (count_params this).

Definition letter_prefix (this : RemoteLogger) : string :=
  string_of_list_ascii
    (map (fun i => letter_of (peek (beyond_headerIndex mem) (header_index this) i))
         (seqZ 0 (count_params this))).


End Format.

(** ** Runs of calls on one file *)

(** [write_to_csv] called once for every (header, data line) pair of
    [calls], in order, on the file [outname]. *)
Definition write_all (outname : string) (calls : list (string * string))
    (sd : SDcard) : SDcard :=
  fold_left (fun sd call => write_to_csv (fst call) (snd call) outname sd) calls sd.

(** ** Counting commas *)

Fixpoint count_char (d : ascii) (s : string) : nat :=
  match s with
  | EmptyString => 0
  | String c s' => (if Ascii.eqb c d then 1 else 0) + count_char d s'
  end.

(** ** Sensor answers *)

(** An answer without its line ends. *)
Fixpoint without_newlines (s : string) : string :=
  match s with
  | EmptyString => EmptyString
  | String c s' =>
      if Ascii.eqb c "010" || Ascii.eqb c "013" then without_newlines s'
      else String c (without_newlines s')
  end.

(** Every [+] turned into a comma. *)
Fixpoint plus_to_comma (s : string) : string :=
  match s with
  | EmptyString => EmptyString
  | String c s' => String (if Ascii.eqb c "+" then "," else c)%char (plus_to_comma s')
  end.

(** ** Reading a trace *)

(** The level a pin is left at by a trace, [before] when the trace does not
    write to it. *)
Definition pin_after (pin : Z) (before : level) (t : list io) : level :=
  fold_left (fun l e => match e with
                        | DigitalWrite q v => if q =? pin then v else l
                        | Delay _ => l
                        end) t before.

(** The time a trace waits, in milliseconds. *)
Definition waited (t : list io) : Z :=
  fold_right (fun e acc => match e with
                           | Delay ms => ms + acc
                           | DigitalWrite _ _ => acc
                           end) 0 t.

(** How often a trace raises a pin. *)
Definition raised (pin : Z) (t : list io) : nat :=
  length (List.filter (fun e => match e with
                           | DigitalWrite q HIGH => q =? pin
                           | _ => false
                           end) t).

(** [k] flashes of a pin. *)
Fixpoint pulses (k : nat) (pin high_ms low_ms : Z) : list io :=
  match k with
  | O => []
  | S k' =>
      DigitalWrite pin HIGH :: Delay (WString.to_unsigned high_ms)
        :: DigitalWrite pin LOW :: Delay (WString.to_unsigned low_ms)
        :: pulses k' pin high_ms low_ms
  end.

(** The date [sync_clock] makes of the time the modem hands over. *)
Definition date_of (t : tm) : DateTime :=
  {| year := tm_year t + 1900; month := tm_mon t + 1; day := tm_mday t;
     hour := tm_hour t; minute := tm_min t; second := tm_sec t |}.

(** ** A worked instance

    Exact decimal arithmetic stands in for [float], and a six-entry
    dictionary for the tables of [RemoteLogger.h]; both serve to run the
    embedding on concrete cards.  Exact arithmetic does not round as the
    32-bit [float] of the board does; no statement below rests on a product
    it computes. *)

Module Exact.

Definition digit_of (c : ascii) : option Z :=
  let n := Z.of_nat (nat_of_ascii c) in
  if (48 <=? n) && (n <=? 57) then Some (n - 48) else None.

Fixpoint parse_digits (s : string) (acc : Z) (scale : positive) (frac : bool) : Q :=
  match s with
  | EmptyString => acc # scale
  | String c s' =>
      if Ascii.eqb c "." then parse_digits s' acc scale true
      else match digit_of c with
           | Some d =>
               parse_digits s' (10 * acc + d)
                 (if frac then (10 * scale)%positive else scale) frac
           | None => acc # scale
           end
  end.

Definition parse (s : string) : Q :=
  match s with
  | String "-" s' => Qopp (parse_digits s' 0 1 false)
  | _ => parse_digits s 0 1 false
  end.

(** Arduino's [round]: [(x) >= 0 ? (long)((x) + 0.5) : (long)((x) - 0.5)]. *)
Definition round_long (x : Q) : Z :=
  if Qle_bool 0 x then Qfloor (x + (1 # 2)) else Qceiling (x - (1 # 2)).

#[export] Instance exact : Float :=
  {| float := Q; parse_float := parse;
     fmul := fun a b => Qred (a * b); round := round_long |}.

Definition dictionary : Dictionary :=
  {| HEADERS := ["water_level_mm"; "water_temp_c"; "water_ec_dcm"; "batt_v";
                 "memory"; "datetime"];
     LETTERS := ["A"; "B"; "C"; "D"; "E"; "F"]%char;
     MULTIPLIERS := [1; 10; 1; 100; 1 # 100; 1]%Q |}.

Definition memory : Memory :=
  {| uninitialised := 0;
     beyond_headerIndex := fun _ => 0;
     beyond_LETTERS := fun _ => "?"%char;
     beyond_MULTIPLIERS := fun _ => 0%Q;
     beyond_datetimes := fun _ => EmptyString;
     beyond_floats := fun _ => 0%Q |}.

Definition hydros : RemoteLogger :=
  {| myHeader := "datetime,batt_v,memory,water_level_mm,water_temp_c,water_ec_dcm" |}.

Definition blank : SDcard :=
  {| files := ∅; opens_for_write := fun _ => true |}.

Definition card (name : string) (ls : list string) : SDcard :=
  {| files := {[ name := ls ]}; opens_for_write := fun _ => true |}.

Definition one_row : SDcard :=
  card "/HOURLY.csv"
    [ "datetime,batt_v,memory,water_level_mm,water_temp_c,water_ec_dcm";
      "2001-01-10T01:11:05,4.31,24627,10.0,18.7,3.0" ].

Definition two_rows : SDcard :=
  card "/HOURLY.csv"
    [ "datetime,batt_v,memory,water_level_mm,water_temp_c,water_ec_dcm";
      "2001-01-10T01:11:05,4.31,24627,10.0,18.7,3.0";
      "2001-01-10T02:11:07,4.28,24611,-11.5,18.94,3.0" ].

(** A queue file without any row. *)
Definition header_only : SDcard :=
  card "/HOURLY.csv"
    [ "datetime,batt_v,memory,water_level_mm,water_temp_c,water_ec_dcm" ].

(** A logger whose last column is not in the dictionary, and its queue. *)
Definition turbid : RemoteLogger :=
  {| myHeader := "datetime,batt_v,memory,water_level_mm,turbidity_ntu" |}.

Definition turbid_row : SDcard :=
  card "/HOURLY.csv"
    [ "datetime,batt_v,memory,water_level_mm,turbidity_ntu";
      "2001-01-10T01:11:05,4.31,24627,10.0,7.5" ].

(** A card on which no file can be opened for writing. *)
Definition locked : SDcard :=
  {| files := ∅; opens_for_write := fun _ => false |}.

(** A sensor that answers the data command with three leading characters,
    three values and a line end, and every other command with a line end. *)
Definition probe : SDI12 :=
  {| answer := fun cmd =>
       if String.eqb cmd "0D0!"
       then "00+105+22.3+0" ++ String "013" (String "010" EmptyString)
       else String "013" (String "010" EmptyString) |}.

(** A bus on which nothing answers. *)
Definition silent : SDI12 := {| answer := fun _ => EmptyString |}.

End Exact.

(** * Properties *)

(** ** Strings *)

Section StringFacts.

Implicit Types s t u : string.

Lemma sapp_cons c s t : String c s ++ t = String c (s ++ t).
Proof. reflexivity. Qed.

Lemma sapp_empty_l s : EmptyString ++ s = s.
Proof. reflexivity. Qed.

Lemma sapp_empty_r s : s ++ EmptyString = s.
Proof. induction s as [|c s IH]; [reflexivity|]. now rewrite sapp_cons, IH. Qed.

Lemma sapp_assoc s t u : (s ++ t) ++ u = s ++ t ++ u.
Proof. induction s as [|c s IH]; [reflexivity|]. now rewrite !sapp_cons, IH. Qed.

Lemma slength_app s t :
  String.length (s ++ t) = (String.length s + String.length t)%nat.
Proof.
  induction s as [|c s IH]; [reflexivity|].
  rewrite sapp_cons. simpl. now rewrite IH.
Qed.

Lemma len_app s t : WString.len (s ++ t) = WString.len s + WString.len t.
Proof. unfold WString.len. rewrite slength_app. lia. Qed.

Lemma len_nonneg s : 0 <= WString.len s.
Proof. unfold WString.len. lia. Qed.

Lemma len_cons c s : WString.len (String c s) = 1 + WString.len s.
Proof. unfold WString.len. simpl String.length. lia. Qed.

Lemma len_zero s : WString.len s <= 0 -> s = EmptyString.
Proof. destruct s; [reflexivity|]. rewrite len_cons. pose proof (len_nonneg s). lia. Qed.

Lemma skip_app s t : WString.skip (String.length s) (s ++ t) = t.
Proof. induction s as [|c s IH]; [now destruct t|]. rewrite sapp_cons. simpl. exact IH. Qed.

Lemma keep_app s t : WString.keep (String.length s) (s ++ t) = s.
Proof.
  induction s as [|c s IH]; [now destruct t|].
  rewrite sapp_cons. simpl. now rewrite IH.
Qed.

Lemma keep_all s : WString.keep (String.length s) s = s.
Proof. rewrite <- (sapp_empty_r s) at 2. apply keep_app. Qed.

Lemma to_unsigned_nonneg i : 0 <= i -> WString.to_unsigned i = i.
Proof. intros Hi. unfold WString.to_unsigned. destruct (Z.ltb_spec i 0); lia. Qed.

Lemma to_nat_len s : Z.to_nat (WString.len s) = String.length s.
Proof. unfold WString.len. lia. Qed.

(** [substring] cuts a middle piece out of a string. *)
Lemma substring_middle s t u :
  t ++ u <> EmptyString ->
  WString.substring (WString.len s) (WString.len s + WString.len t) (s ++ t ++ u) = t.
Proof.
  intros Hne. unfold WString.substring.
  pose proof (len_nonneg s). pose proof (len_nonneg t). pose proof (len_nonneg u).
  rewrite !to_unsigned_nonneg by lia.
  destruct (Z.ltb_spec (WString.len s + WString.len t) (WString.len s)); [lia|].
  rewrite !len_app.
  destruct (Z.leb_spec (WString.len s + (WString.len t + WString.len u)) (WString.len s)) as [Hle|_].
  { exfalso. apply Hne. apply len_zero. rewrite len_app. lia. }
  destruct (Z.ltb_spec (WString.len s + (WString.len t + WString.len u))
              (WString.len s + WString.len t)); [lia|].
  replace (WString.len s + WString.len t - WString.len s) with (WString.len t) by lia.
  rewrite !to_nat_len, skip_app. apply keep_app.
Qed.

Lemma substring_from_suffix s t :
  WString.substring_from (WString.len s) (s ++ t) = t.
Proof.
  unfold WString.substring_from, WString.substring.
  pose proof (len_nonneg s). pose proof (len_nonneg t).
  rewrite !to_unsigned_nonneg by (rewrite ?len_app; lia).
  rewrite len_app.
  destruct (Z.ltb_spec (WString.len s + WString.len t) (WString.len s)); [lia|].
  destruct (Z.leb_spec (WString.len s + WString.len t) (WString.len s)).
  { symmetry. apply len_zero. lia. }
  rewrite Z.ltb_irrefl.
  replace (WString.len s + WString.len t - WString.len s) with (WString.len t) by lia.
  rewrite !to_nat_len, skip_app. apply keep_all.
Qed.

End StringFacts.

(** ** Splitting at a delimiter

    [split_on] is the reading of a comma-separated line the specification
    uses; the index-walking loops of the code are compared with it. *)

Section Splitting.

Variable d : ascii.

Lemma split_on_nonempty s : split_on d s <> [].
Proof.
  destruct s as [|c s]; simpl; [discriminate|].
  destruct (Ascii.eqb c d); [discriminate|].
  destruct (split_on d s); discriminate.
Qed.

Lemma split_on_cons_delim s : split_on d (String d s) = EmptyString :: split_on d s.
Proof. simpl. now rewrite Ascii.eqb_refl. Qed.

Lemma split_on_cons_other c s f fs :
  c <> d -> split_on d s = f :: fs -> split_on d (String c s) = String c f :: fs.
Proof.
  intros Hc Hs. simpl. rewrite Hs.
  destruct (Ascii.eqb_spec c d); [contradiction|reflexivity].
Qed.

Lemma split_on_length s : (length (split_on d s) <= S (String.length s))%nat.
Proof.
  induction s as [|c s IH]; simpl; [lia|].
  destruct (Ascii.eqb c d); simpl; [lia|].
  destruct (split_on d s); simpl in *; lia.
Qed.

Lemma split_on_one s f : split_on d s = [f] -> s = f.
Proof.
  revert f. induction s as [|c s IH]; intros f; simpl.
  - now intros [= <-].
  - destruct (Ascii.eqb c d).
    + intros [= _ Hs]. now apply split_on_nonempty in Hs.
    + destruct (split_on d s) as [|g gs] eqn:Hs; [now apply split_on_nonempty in Hs|].
      intros [= <- ->]. now rewrite (IH g).
Qed.

Lemma split_on_two s f g fs :
  split_on d s = f :: g :: fs ->
  exists s', s = f ++ String d s' /\ split_on d s' = g :: fs.
Proof.
  revert f. induction s as [|c s IH]; intros f; simpl; [discriminate|].
  destruct (Ascii.eqb_spec c d) as [->|Hc].
  - intros [= <- Hs]. now exists s.
  - destruct (split_on d s) as [|h hs] eqn:Hs; [discriminate|].
    intros [= <- ->]. destruct (IH h eq_refl) as (s' & -> & Hs').
    now exists s'.
Qed.

(** Putting a delimiter-free field in front adds one field. *)
Lemma split_on_field f s :
  split_on d f = [f] -> split_on d (f ++ String d s) = f :: split_on d s.
Proof.
  induction f as [|c f IH]; intros Hf.
  - apply split_on_cons_delim.
  - simpl in Hf. rewrite sapp_cons. simpl.
    destruct (Ascii.eqb c d).
    + injection Hf as _ Hf. now apply split_on_nonempty in Hf.
    + destruct (split_on d f) as [|g gs] eqn:Hg; [now apply split_on_nonempty in Hg|].
      injection Hf as -> ->. now rewrite IH.
Qed.

End Splitting.

(** ** The header walked by index

    [count_params] and [populate_header_index] walk the header from comma to
    comma with [indexOf] and [substring]; both agree with [columns]. *)

Lemma strstr_comma s p : WString.strstr "," s p = comma_pos s p.
Proof.
  unfold comma_pos. revert p.
  induction s as [|c s IH]; intros p; [reflexivity|].
  cbn [WString.strstr String.prefix].
  destruct (ascii_dec "," c) as [<-|Hc].
  - rewrite split_on_cons_delim.
    destruct (split_on "," s) eqn:Hs; [now apply split_on_nonempty in Hs|].
    change (WString.len EmptyString) with 0.
    replace (String.prefix EmptyString s) with true by (now destruct s). lia.
  - rewrite IH.
    destruct (split_on "," s) as [|f fs] eqn:Hs; [now apply split_on_nonempty in Hs|].
    rewrite (split_on_cons_other _ _ _ f fs) by congruence.
    destruct fs; [reflexivity|]. rewrite len_cons. lia.
Qed.

Lemma indexOf_comma pre suf :
  WString.indexOf "," (WString.len pre) (pre ++ suf) = comma_pos suf (WString.len pre).
Proof.
  unfold WString.indexOf. pose proof (len_nonneg pre). pose proof (len_nonneg suf).
  rewrite to_unsigned_nonneg by lia. rewrite len_app.
  destruct (Z.leb_spec (WString.len pre + WString.len suf) (WString.len pre)).
  - rewrite (len_zero suf) by lia. reflexivity.
  - rewrite to_nat_len, skip_app. apply strstr_comma.
Qed.

Lemma columns_nonempty (this : RemoteLogger) :
  myHeader this <> EmptyString -> columns this = split_on "," (myHeader this).
Proof. unfold columns. now destruct (myHeader this). Qed.

Lemma poke_middle {A} (done rest : list A) (x v : A) :
  poke (done ++ x :: rest)%list (Z.of_nat (length done)) v = (done ++ v :: rest)%list.
Proof.
  unfold poke. destruct (Z.leb_spec 0 (Z.of_nat (length done))); [|lia].
  rewrite Nat2Z.id, insert_app_r_alt by lia.
  now rewrite Nat.sub_diag.
Qed.


Lemma count_params_loop_spec fuel pre suf ctr :
  (length (split_on "," suf) <= S fuel)%nat ->
  count_params_loop fuel (pre ++ suf) ctr (comma_pos suf (WString.len pre))
  = ctr + Z.of_nat (length (split_on "," suf)) - 1.
Proof.
  revert pre suf ctr. induction fuel as [|fuel IH]; intros pre suf ctr Hfuel;
    unfold comma_pos;
    (destruct (split_on "," suf) as [|f [|g fs]] eqn:Hs;
      [now apply split_on_nonempty in Hs | | ]).
  - simpl. lia.
  - simpl in Hfuel. lia.
  - simpl. lia.
  - pose proof (len_nonneg pre). pose proof (len_nonneg f).
    destruct (split_on_two _ _ _ _ _ Hs) as (s' & -> & Hs').
    cbn [count_params_loop].
    destruct (Z.eqb_spec (WString.len pre + WString.len f) (-1)); [lia|].
    replace (pre ++ f ++ String "," s') with ((pre ++ f ++ ",") ++ s')
      by (now rewrite !sapp_assoc).
    replace (WString.len pre + WString.len f + 1) with (WString.len (pre ++ f ++ ","))
      by (rewrite !len_app; change (WString.len ",") with 1; lia).
    rewrite indexOf_comma, IH by (rewrite Hs'; simpl in *; lia).
    rewrite Hs'. simpl length. lia.
Qed.

(** [count_params] counts the columns of the header; the rounds allowed to
    its loop are never used up. *)
Lemma count_params_columns (this : RemoteLogger) :
  count_params this = Z.of_nat (length (columns this)).
Proof.
  destruct (string_dec (myHeader this) EmptyString) as [He|Hne].
  { unfold count_params, columns. now rewrite He. }
  rewrite columns_nonempty by assumption. unfold count_params.
  destruct (Z.ltb_spec (WString.len (myHeader this)) 1) as [Hlen|_].
  { exfalso. apply Hne, len_zero. lia. }
  pose proof (indexOf_comma EmptyString (myHeader this)) as Hi.
  rewrite sapp_empty_l in Hi. change (WString.len EmptyString) with 0 in Hi.
  rewrite Hi.
  pose proof (count_params_loop_spec (String.length (myHeader this)) EmptyString
                (myHeader this) 1 (split_on_length _ _)) as Hl.
  rewrite sapp_empty_l in Hl. change (WString.len EmptyString) with 0 in Hl.
  rewrite Hl. lia.
Qed.

Section HeaderIndex.

Context `{Float} (dict : Dictionary).

Lemma populate_loop_spec n : forall pre suf done rest,
  (n < length (split_on "," suf))%nat -> (n <= length rest)%nat ->
  exists pre' suf',
    populate_loop dict n (pre ++ suf) (Z.of_nat (length done)) (WString.len pre - 1)
      (done ++ rest)%list
    = ((done ++ map (find_key dict) (take n (split_on "," suf)) ++ drop n rest)%list,
       WString.len pre' - 1)
    /\ pre ++ suf = pre' ++ suf'
    /\ split_on "," suf' = drop n (split_on "," suf).
Proof.
  induction n as [|n IH]; intros pre suf done rest Hn Hrest.
  - exists pre, suf. now rewrite take_0, !drop_0.
  - destruct (split_on "," suf) as [|f [|g fs]] eqn:Hs; simpl in Hn; [lia|lia|].
    destruct rest as [|x rest]; simpl in Hrest; [lia|].
    destruct (split_on_two _ _ _ _ _ Hs) as (s' & -> & Hs').
    cbn [populate_loop].
    replace (WString.len pre - 1 + 1) with (WString.len pre) by lia.
    rewrite indexOf_comma. unfold comma_pos. rewrite Hs.
    rewrite substring_middle by (destruct f; discriminate).
    rewrite poke_middle.
    destruct (IH (pre ++ f ++ ",") s' (done ++ [find_key dict f])%list rest)
      as (pre' & suf' & Hloop & Heq & Hsplit).
    { rewrite Hs'. simpl. lia. }
    { lia. }
    exists pre', suf'.
    replace (WString.len pre + WString.len f)
      with (WString.len (pre ++ f ++ ",") - 1)
      by (rewrite !len_app; change (WString.len ",") with 1; lia).
    replace (Z.of_nat (length done) + 1)
      with (Z.of_nat (length (done ++ [find_key dict f])%list))
      by (rewrite length_app; simpl; lia).
    replace (pre ++ f ++ String "," s') with ((pre ++ f ++ ",") ++ s')
      by (now rewrite !sapp_assoc).
    replace (done ++ find_key dict f :: rest)%list
      with ((done ++ [find_key dict f]) ++ rest)%list
      by (now rewrite <- List.app_assoc).
    rewrite Hloop. rewrite Hs' in Hsplit |- *.
    split; [|split; [exact Heq | exact Hsplit]].
    f_equal. simpl. now rewrite <- List.app_assoc.
Qed.

(** [populate_header_index] fills the array with the dictionary index of
    every column, in the order of the header. *)
Lemma populate_header_index_columns (this : RemoteLogger) (headerIndex : list Z) :
  length headerIndex = length (columns this) ->
  populate_header_index dict this headerIndex (count_params this)
  = map (find_key dict) (columns this).
Proof.
  intros Hlen. unfold populate_header_index.
  rewrite (count_params_columns this).
  destruct (string_dec (myHeader this) EmptyString) as [He|Hne].
  { unfold columns in *. rewrite He in *. destruct headerIndex; [|discriminate].
    reflexivity. }
  rewrite columns_nonempty in * by assumption.
  pose proof (split_on_nonempty "," (myHeader this)) as Hcols.
  set (cols := split_on "," (myHeader this)) in *.
  assert (Hpos : (1 <= length cols)%nat).
  { destruct cols; simpl; [congruence|lia]. }
  set (n := length cols) in *.
  assert (Hn : Z.to_nat (Z.of_nat n - 1) = (n - 1)%nat) by lia.
  rewrite Hn.
  destruct (populate_loop_spec (n - 1) EmptyString (myHeader this) [] headerIndex)
    as (pre' & suf' & Hloop & Heq & Hsplit).
  { fold cols. fold n. lia. }
  { lia. }
  rewrite sapp_empty_l in Hloop, Heq. simpl in Hloop.
  change (WString.len EmptyString - 1) with (-1) in Hloop.
  change (Z.of_nat 0) with 0 in Hloop.
  rewrite Hloop. fold cols in Hsplit |- *.
  replace (WString.len pre' - 1 + 1) with (WString.len pre') by lia.
  rewrite Heq, substring_from_suffix.
  assert (Hlast : length (drop (n - 1) cols) = 1%nat).
  { rewrite length_drop. fold n. lia. }
  destruct (drop (n - 1) cols) as [|l [|? ?]] eqn:Hd; simpl in Hlast; try lia.
  apply split_on_one in Hsplit. subst suf'.
  assert (Hrest : length (drop (n - 1) headerIndex) = 1%nat).
  { rewrite length_drop. lia. }
  destruct (drop (n - 1) headerIndex) as [|x [|? ?]] eqn:Hx; simpl in Hrest; try lia.
  replace (Z.of_nat n - 1)
    with (Z.of_nat (length (map (find_key dict) (take (n - 1) cols))))
    by (rewrite length_map, length_take; lia).
  rewrite poke_middle.
  transitivity (map (find_key dict) (take (n - 1) cols ++ drop (n - 1) cols)%list).
  - now rewrite map_app, Hd.
  - now rewrite take_drop.
Qed.

End HeaderIndex.

(** ** Loops that append to a message *)

Section Loops.






End Loops.

(** ** The statements of [prep_msg], loop by loop *)

Lemma values_readSDfile name sd fmt d :
  values (CSV.readSDfile name sd (CSV.new fmt true d))
  = map (split_on d) (tail (SD.lines name sd)).
Proof.
  unfold CSV.readSDfile, SD.lines.
  destruct (files sd !! name) as [ls|]; simpl; [|reflexivity].
  now destruct ls.
Qed.

Lemma getRowsCount_readSDfile name sd fmt d :
  CSV.getRowsCount (CSV.readSDfile name sd (CSV.new fmt true d))
  = Z.of_nat (length (tail (SD.lines name sd))).
Proof. unfold CSV.getRowsCount. now rewrite values_readSDfile, length_map. Qed.

Section Encoding.

Context `{Float} (dict : Dictionary) (mem : Memory).



End Encoding.

(** ** The dictionary *)

Section Lookup.

Context `{Float} (dict : Dictionary) (mem : Memory).

Lemma find_key_loop_spec (headers : list string) (key : string) (i : Z) :
  find_key_loop i headers key
  = match list_find (fun h => h = key) headers with
    | Some (j, _) => i + Z.of_nat j
    | None => -1
    end.
Proof.
  revert i. induction headers as [|h headers IH]; intros i; [reflexivity|].
  cbn [find_key_loop list_find]. destruct (String.eqb_spec h key) as [->|Hne].
  - rewrite decide_True by reflexivity. simpl. lia.
  - rewrite decide_False by assumption. rewrite IH.
    destruct (list_find (fun h => h = key) headers) as [[j x]|]; simpl; [lia|reflexivity].
Qed.

Lemma find_key_spec (key : string) :
  find_key dict key
  = match list_find (fun h => h = key) (HEADERS dict) with
    | Some (j, _) => Z.of_nat j
    | None => -1
    end.
Proof.
  unfold find_key. rewrite find_key_loop_spec.
  now destruct (list_find _ _) as [[j x]|].
Qed.

Lemma find_key_found (key : string) (j : nat) :
  HEADERS dict !! j = Some key ->
  (forall i, (i < j)%nat -> HEADERS dict !! i <> Some key) ->
  find_key dict key = Z.of_nat j.
Proof.
  intros Hj Hfirst. rewrite find_key_spec.
  destruct (list_find _ _) as [[i x]|] eqn:Hf.
  - apply list_find_Some in Hf as (Hi & -> & Hbefore).
    destruct (Nat.lt_trichotomy i j) as [Hlt|[->|Hgt]]; [|reflexivity|].
    + now apply Hfirst in Hlt.
    + now apply (Hbefore j key) in Hgt.
  - apply list_find_None in Hf. rewrite Forall_forall in Hf.
    exfalso. apply (Hf key); [|reflexivity].
    eapply list_elem_of_lookup_2, Hj.
Qed.

End Lookup.

(** ** The letters *)


Lemma length_string_of_list_ascii (l : list ascii) :
  String.length (string_of_list_ascii l) = length l.
Proof. induction l as [|c l IH]; simpl; [reflexivity|]. now rewrite IH. Qed.

Section EncodingFacts.

Context `{Float} (dict : Dictionary) (mem : Memory).

Implicit Types (this : RemoteLogger) (sd : SDcard).





End EncodingFacts.

Lemma compact_timestamp (YYYY MM DD hh mm ss : string) :
  String.length YYYY = 4%nat -> String.length MM = 2%nat ->
  String.length DD = 2%nat -> String.length hh = 2%nat ->
  compact (timestamp YYYY MM DD hh mm ss) = WString.skip 2 YYYY ++ MM ++ DD ++ hh.
Proof.
  intros HY HM HD Hh.
  destruct YYYY as [|y1 [|y2 [|y3 [|y4 [|? ?]]]]]; try discriminate.
  destruct MM as [|m1 [|m2 [|? ?]]]; try discriminate.
  destruct DD as [|d1 [|d2 [|? ?]]]; try discriminate.
  destruct hh as [|h1 [|h2 [|? ?]]]; try discriminate.
  clear. unfold compact.
  set (ts := timestamp _ _ _ _ mm ss).
  set (tail := ":" ++ mm ++ ":" ++ ss).
  set (yy := String y3 (String y4 EmptyString)).
  set (mo := String m1 (String m2 EmptyString)).
  set (dd := String d1 (String d2 EmptyString)).
  set (ho := String h1 (String h2 EmptyString)).
  assert (E1 : WString.substring 2 4 ts = yy).
  { exact (substring_middle (String y1 (String y2 EmptyString)) yy
             ("-" ++ mo ++ "-" ++ dd ++ "T" ++ ho ++ tail) ltac:(discriminate)). }
  assert (E2 : WString.substring 5 7 ts = mo).
  { exact (substring_middle (String y1 (String y2 (yy ++ "-"))) mo
             ("-" ++ dd ++ "T" ++ ho ++ tail) ltac:(discriminate)). }
  assert (E3 : WString.substring 8 10 ts = dd).
  { exact (substring_middle (String y1 (String y2 (yy ++ "-" ++ mo ++ "-"))) dd
             ("T" ++ ho ++ tail) ltac:(discriminate)). }
  assert (E4 : WString.substring 11 13 ts = ho).
  { exact (substring_middle
             (String y1 (String y2 (yy ++ "-" ++ mo ++ "-" ++ dd ++ "T"))) ho tail
             ltac:(discriminate)). }
  rewrite E1, E2, E3, E4. reflexivity.
Qed.

(** ** The encoder *)

Section Telemetry.

Context `{Float} (dict : Dictionary) (mem : Memory).

Implicit Types (this : RemoteLogger) (sd : SDcard).


End Telemetry.

(** ** The calls in the abstract machine *)

Section AbstractMachine.

Context `{Float} (dict : Dictionary).

Implicit Types (this : RemoteLogger) (sd : SDcard).

Lemma count_params_outcome this :
  Strict.count_params this
  = match myHeader this with
    | EmptyString => Strict.Returns 0
    | String _ _ => Strict.Undefined Strict.delete_not_new
    end.
Proof.
  unfold Strict.count_params. destruct (myHeader this) as [|c s]; [reflexivity|].
  destruct (Z.ltb_spec (WString.len (String c s)) 1) as [Hlen|_]; [|reflexivity].
  rewrite len_cons in Hlen. pose proof (len_nonneg s). lia.
Qed.

Lemma populate_unassigned this (num_params : Z) :
  Strict.populate_header_index dict this Strict.unassigned num_params
  = Strict.Undefined Strict.unassigned_pointer.
Proof.
  unfold Strict.populate_header_index.
  now destruct (Z.to_nat (num_params - 1)).
Qed.

Lemma prep_msg_outcome this sd :
  Strict.prep_msg dict this sd
  = Strict.Undefined
      match myHeader this with
      | EmptyString => Strict.unassigned_pointer
      | String _ _ => Strict.delete_not_new
      end.
Proof.
  unfold Strict.prep_msg. rewrite count_params_outcome.
  destruct (myHeader this) as [|c s] eqn:Hh; [|reflexivity].
  cbv [mbind Strict.outcome_bind]. now rewrite populate_unassigned.
Qed.

Lemma prep_msg_returns_nothing this sd (msg : string) :
  Strict.prep_msg dict this sd <> Strict.Returns msg.
Proof. rewrite prep_msg_outcome. discriminate. Qed.

Lemma elem_lookup {A} (a : list A) (i : Z) (x : A) :
  0 <= i -> a !! Z.to_nat i = Some x -> Strict.elem a i = Strict.Returns x.
Proof.
  intros Hi Hx. unfold Strict.elem.
  destruct (Z.leb_spec 0 i); [|lia]. now rewrite Hx.
Qed.

Lemma elem_fault {A} (a : list A) (i : Z) (f : Strict.fault) :
  Strict.elem a i = Strict.Undefined f -> f = Strict.outside_array.
Proof.
  unfold Strict.elem. destruct (0 <=? i); [|congruence].
  destruct (a !! Z.to_nat i); congruence.
Qed.

Lemma elem_before {A} (a : list A) (i : Z) :
  i < 0 -> Strict.elem a i = Strict.Undefined Strict.outside_array.
Proof. intros Hi. unfold Strict.elem. now destruct (Z.leb_spec 0 i); [lia|]. Qed.

(** A loop that meets an element at which its body is undefined is
    undefined, when the body has no other way of being undefined. *)
Lemma for_each_undefined {A B} (body : B -> A -> Strict.outcome B) (l : list A)
    (a0 : A) (f0 : Strict.fault) :
  In a0 l ->
  (forall b, body b a0 = Strict.Undefined f0) ->
  (forall b a f, body b a = Strict.Undefined f -> f = f0) ->
  forall b, Strict.for_each body l b = Strict.Undefined f0.
Proof.
  intros Hin Hat Honly. induction l as [|a l IH]; [destruct Hin|].
  intros b. simpl.
  destruct (body b a) as [b'|f] eqn:Hb.
  - simpl. destruct Hin as [->|Hin]; [now rewrite Hat in Hb|]. now apply IH.
  - simpl. now rewrite (Honly b a f Hb).
Qed.

Lemma in_seqZ (i n : Z) : 0 <= i < n -> In i (seqZ 0 n).
Proof.
  intros Hi. apply list_elem_of_In, elem_of_seqZ. lia.
Qed.

Lemma letters_undefined (headerIndex : Strict.index_pointer) (i n k : Z)
    (msg : string) :
  0 <= i < n -> k < 0 ->
  (forall cells, headerIndex = Strict.storage cells -> cells !! Z.to_nat i = Some k) ->
  Strict.letters dict headerIndex n msg
  = Strict.Undefined
      match headerIndex with
      | Strict.unassigned => Strict.unassigned_pointer
      | Strict.storage _ => Strict.outside_array
      end.
Proof.
  intros Hi Hk Hcell. unfold Strict.letters.
  apply (for_each_undefined _ _ i); [now apply in_seqZ| |].
  - intros b. destruct headerIndex as [|cells]; [reflexivity|]. simpl.
    rewrite (elem_lookup cells i k) by (try lia; now apply Hcell). simpl.
    now rewrite elem_before.
  - intros b a f. destruct headerIndex as [|cells]; simpl; [congruence|].
    destruct (Strict.elem cells a) as [k'|f'] eqn:Hc; simpl.
    + destruct (Strict.elem (LETTERS dict) k') as [l|f'] eqn:Hl; simpl; [discriminate|].
      intros [= <-]. exact (elem_fault _ _ _ Hl).
    + intros [= <-]. exact (elem_fault _ _ _ Hc).
Qed.

Lemma scaled_undefined (floatOut : list float) (row : Z)
    (headerIndex : Strict.index_pointer) (column k : Z) :
  0 <= column -> k < 0 ->
  (forall cells, headerIndex = Strict.storage cells ->
                 cells !! Z.to_nat column = Some k) ->
  exists f, Strict.scaled dict floatOut row headerIndex column = Strict.Undefined f.
Proof.
  intros Hc Hk Hcell. unfold Strict.scaled.
  destruct (Strict.elem floatOut row) as [v|f]; simpl; [|now exists f].
  destruct headerIndex as [|cells]; simpl; [now eexists|].
  rewrite (elem_lookup cells column k) by (try lia; now apply Hcell). simpl.
  rewrite elem_before by exact Hk. now eexists.
Qed.

(** C1 (what the code does).  Whatever the header and whatever the queue
    file holds, a call of [prep_msg] has no defined result, so it returns no
    message of the wire format.  For a header that is not empty the call is
    undefined in [count_params], at the [delete] of the automatic [String]
    [delim]; for the empty header it is undefined in
    [populate_header_index], at the write through [headerIndex], a pointer
    that was never assigned. *)
Theorem prep_msg_no_message this sd :
  Strict.prep_msg dict this sd
  = Strict.Undefined
      match myHeader this with
      | EmptyString => Strict.unassigned_pointer
      | String _ _ => Strict.delete_not_new
      end
  /\ forall letters timestamp battery memory rows,
       Strict.prep_msg dict this sd
       <> Strict.Returns (wire letters timestamp battery memory rows).
Proof.
  split; [apply prep_msg_outcome|].
  intros letters ts battery memory rows. apply prep_msg_returns_nothing.
Qed.

(** C3 (what the code does).  The four [substring] calls cut the right
    characters: on a first row whose timestamp is laid out as
    [YYYY-MM-DDTHH:MM:SS] they append the last two characters of the year,
    the month, the day and the hour.  The call never gets to them: before
    the timestamp [count_params] is undefined for every header that is not
    empty, and [populate_header_index] writes through the unassigned
    [headerIndex] for every number of columns; [prep_msg] returns no
    message. *)
Theorem timestamp_cut_not_reached this sd (out_datetimes : list string)
    (YYYY MM DD hh mm ss msg : string) :
  out_datetimes !! 0%nat = Some (timestamp YYYY MM DD hh mm ss) ->
  String.length YYYY = 4%nat -> String.length MM = 2%nat ->
  String.length DD = 2%nat -> String.length hh = 2%nat ->
  Strict.datetime out_datetimes msg
  = Strict.Returns (msg ++ WString.skip 2 YYYY ++ MM ++ DD ++ hh)
  /\ (myHeader this <> EmptyString ->
      Strict.count_params this = Strict.Undefined Strict.delete_not_new)
  /\ (forall num_params,
        Strict.populate_header_index dict this Strict.unassigned num_params
        = Strict.Undefined Strict.unassigned_pointer)
  /\ forall m, Strict.prep_msg dict this sd <> Strict.Returns m.
Proof.
  intros Hfirst HY HM HD Hh. split; [|split; [|split]].
  - unfold Strict.datetime.
    rewrite (elem_lookup out_datetimes 0 _ ltac:(lia) Hfirst).
    cbv [mbind Strict.outcome_bind]. f_equal.
    rewrite <- (compact_timestamp YYYY MM DD hh mm ss HY HM HD Hh).
    unfold compact. now rewrite !sapp_assoc.
  - intros Hne. rewrite count_params_outcome. now destruct (myHeader this).
  - intros num_params. apply populate_unassigned.
  - intros m. apply prep_msg_returns_nothing.
Qed.

(** C4 (what the code does).  The battery and the memory section are
    computed as [round(v * m)] of a value [v] of the column and the
    multiplier [m] the dictionary has for the column's name, when the
    header index points to cells that hold [find_key] of the names.  In
    [prep_msg] it does not: the multiplier is read through [headerIndex],
    which was never assigned, so the section has no defined value, whatever
    the batch; [prep_msg] returns no message. *)
Theorem battery_memory_through_unassigned this sd (floatOut : list float)
    (row column : Z) (value : float) :
  0 <= row ->
  floatOut !! Z.to_nat row = Some value ->
  Strict.scaled dict floatOut row Strict.unassigned column
  = Strict.Undefined Strict.unassigned_pointer
  /\ (forall cells name code multiplier,
        0 <= column ->
        cells !! Z.to_nat column = Some (find_key dict name) ->
        lookup dict name = Some (code, multiplier) ->
        Strict.scaled dict floatOut row (Strict.storage cells) column
        = Strict.Returns (WString.of_long (round (fmul value multiplier))))
  /\ forall m, Strict.prep_msg dict this sd <> Strict.Returns m.
Proof.
  intros Hrow Hvalue. split; [|split].
  - unfold Strict.scaled. now rewrite (elem_lookup floatOut row value Hrow Hvalue).
  - intros cells name code multiplier Hc Hcell Hl. unfold Strict.scaled.
    rewrite (elem_lookup floatOut row value Hrow Hvalue). simpl.
    rewrite (elem_lookup cells column _ Hc Hcell). simpl.
    unfold lookup in Hl. rewrite find_key_spec.
    destruct (list_find _ _) as [[i x]|]; [|discriminate].
    destruct (LETTERS dict !! i); [|discriminate].
    destruct (MULTIPLIERS dict !! i) as [m|] eqn:Hm; [|discriminate].
    injection Hl as _ <-.
    rewrite (elem_lookup (MULTIPLIERS dict) (Z.of_nat i) m) by (try lia; now rewrite Nat2Z.id).
    reflexivity.
  - intros m. apply prep_msg_returns_nothing.
Qed.

(** C5 (what the code does).  For a column name that has no entry in the
    dictionary [find_key] returns [-1], and nothing tests that value: with
    [-1] in the column's cell of the header index, the loop that builds the
    letters reads [LETTERS[-1]] and the scaling reads [MULTIPLIERS[-1]],
    both outside the tables, and with the unassigned [headerIndex] that
    [prep_msg] has they are undefined already at the pointer.  No error is
    returned, and no message either. *)
Theorem unknown_column_reads_outside (name : string) :
  ~ In name (HEADERS dict) ->
  find_key dict name = -1
  /\ (forall (headerIndex : Strict.index_pointer) (i n : Z) (msg : string),
        0 <= i < n ->
        (forall cells, headerIndex = Strict.storage cells ->
                       cells !! Z.to_nat i = Some (find_key dict name)) ->
        Strict.letters dict headerIndex n msg
        = Strict.Undefined
            match headerIndex with
            | Strict.unassigned => Strict.unassigned_pointer
            | Strict.storage _ => Strict.outside_array
            end)
  /\ (forall (floatOut : list float) (row : Z)
             (headerIndex : Strict.index_pointer) (column : Z),
        0 <= column ->
        (forall cells, headerIndex = Strict.storage cells ->
                       cells !! Z.to_nat column = Some (find_key dict name)) ->
        exists f,
          Strict.scaled dict floatOut row headerIndex column = Strict.Undefined f)
  /\ forall this sd msg, Strict.prep_msg dict this sd <> Strict.Returns msg.
Proof.
  intros Hno.
  assert (Hkey : find_key dict name = -1).
  { rewrite find_key_spec.
    destruct (list_find _ _) as [[j x]|] eqn:Hf; [|reflexivity].
    apply list_find_Some in Hf as (Hj & -> & _). exfalso. apply Hno.
    apply list_elem_of_In. eapply list_elem_of_lookup_2, Hj. }
  split; [exact Hkey|]. rewrite Hkey. split; [|split].
  - intros headerIndex i n msg Hi Hcell.
    now apply (letters_undefined headerIndex i n (-1)).
  - intros floatOut row headerIndex column Hc Hcell.
    now apply (scaled_undefined floatOut row headerIndex column (-1)).
  - intros this sd msg. apply prep_msg_returns_nothing.
Qed.

(** C6 (what the code does).  With no buffered row the parser has no row,
    and nothing tests that count: the timestamp is cut out of
    [out_datetimes[0]] and the battery and memory values are read at
    [floatOut[num_rows - 1]], that is [floatOut[-1]], all of them outside
    the columns.  No error is returned, and no message either. *)
Theorem empty_batch_reads_outside this sd (csv_setting : string) :
  hourly_rows sd = [] ->
  let cp := CSV.readSDfile "/HOURLY.csv" sd (CSV.new csv_setting true ",") in
  CSV.getRowsCount cp = 0
  /\ (forall msg,
        Strict.datetime (CSV.strings cp 0) msg
        = Strict.Undefined Strict.outside_array)
  /\ (forall headerIndex column,
        Strict.scaled dict (floats cp column) (CSV.getRowsCount cp - 1)
          headerIndex column
        = Strict.Undefined Strict.outside_array)
  /\ forall msg, Strict.prep_msg dict this sd <> Strict.Returns msg.
Proof.
  intros Hrows cp.
  assert (Hvalues : values cp = []).
  { unfold cp. rewrite values_readSDfile. exact Hrows. }
  assert (Hcount : CSV.getRowsCount cp = 0).
  { unfold CSV.getRowsCount. now rewrite Hvalues. }
  split; [exact Hcount|]. split; [|split].
  - intros msg. unfold Strict.datetime, CSV.strings. now rewrite Hvalues.
  - intros headerIndex column. unfold Strict.scaled. rewrite Hcount.
    now rewrite elem_before by lia.
  - intros msg. apply prep_msg_returns_nothing.
Qed.

(** C9 (what the code does).  For every header that is not empty a call
    of [num_hours] has no defined result: it begins with [count_params],
    which is undefined at [delete &delim;], and so returns no count,
    whatever the queue file holds.  Only for the empty header does the call
    get to the parser. *)
Theorem num_hours_undefined this sd :
  Strict.num_hours this sd
  = match myHeader this with
    | EmptyString =>
        Strict.Returns
          (CSV.getRowsCount (CSV.readSDfile "/HOURLY.csv" sd (CSV.new "s" true ",")))
    | String _ _ => Strict.Undefined Strict.delete_not_new
    end.
Proof.
  unfold Strict.num_hours. rewrite count_params_outcome.
  now destruct (myHeader this).
Qed.

End AbstractMachine.

(** ** The counters on the card *)

Section Tracking.

Implicit Types (sd : SDcard).

Lemma exists_true name sd :
  SD.exists_ name sd = true <-> exists ls, files sd !! name = Some ls.
Proof. unfold SD.exists_. rewrite bool_decide_eq_true. reflexivity. Qed.

Lemma exists_false name sd :
  SD.exists_ name sd = false <-> files sd !! name = None.
Proof.
  unfold SD.exists_. rewrite bool_decide_eq_false, <- eq_None_not_Some. reflexivity.
Qed.

Lemma write_to_csv_created header data outname sd :
  opens_for_write sd outname = true -> files sd !! outname = None ->
  write_to_csv header data outname sd
  = {| files := <[outname := [header; data]]> (files sd);
       opens_for_write := opens_for_write sd |}.
Proof.
  intros Ho Hf. unfold write_to_csv, SD.open_write.
  rewrite (proj2 (exists_false outname sd) Hf), Ho, Hf. simpl.
  rewrite lookup_insert_eq. simpl. rewrite lookup_insert_eq. simpl.
  now rewrite !insert_insert_eq.
Qed.

Lemma write_to_csv_appended header data outname sd ls :
  opens_for_write sd outname = true -> files sd !! outname = Some ls ->
  write_to_csv header data outname sd
  = {| files := <[outname := (ls ++ [data])%list]> (files sd);
       opens_for_write := opens_for_write sd |}.
Proof.
  intros Ho Hf. unfold write_to_csv, SD.open_write.
  rewrite (proj2 (exists_true outname sd) (ex_intro _ ls Hf)), Ho, Hf. simpl.
  now rewrite Hf.
Qed.

Lemma write_to_csv_unopened header data outname sd :
  opens_for_write sd outname = false ->
  write_to_csv header data outname sd = sd.
Proof.
  intros Ho. unfold write_to_csv, SD.open_write. rewrite Ho.
  now destruct (negb (SD.exists_ outname sd)).
Qed.

(** After the first of [n + 1] increments on a card without tracking file,
    the file holds its header and one line per increment. *)
Lemma increment_samples_lines sd (n : nat) :
  files sd !! "/TRACKING.csv" = None ->
  opens_for_write sd "/TRACKING.csv" = true ->
  Nat.iter (S n) increment_samples sd
  = {| files := <["/TRACKING.csv" := "n" :: replicate (S n) "1"]> (files sd);
       opens_for_write := opens_for_write sd |}.
Proof.
  intros Hf Ho. induction n as [|n IH].
  - simpl. unfold increment_samples. now rewrite write_to_csv_created.
  - change (Nat.iter (S (S n)) increment_samples sd)
      with (increment_samples (Nat.iter (S n) increment_samples sd)).
    rewrite IH. unfold increment_samples.
    erewrite write_to_csv_appended; [|exact Ho|apply lookup_insert_eq].
    simpl. rewrite insert_insert_eq. do 3 f_equal.
    change ("1" :: replicate n "1") with (replicate (S n) "1").
    now rewrite <- replicate_S_end.
Qed.

(** C7 (what the code does).  On a card without tracking file on which the
    file can be opened, [num_samples] after [N >= 1] calls of
    [increment_samples] is [N - 1]: the parser does not count the header
    line, and [num_samples] takes one more off the count. *)
Theorem num_samples_after_increments sd (N : nat) :
  files sd !! "/TRACKING.csv" = None ->
  opens_for_write sd "/TRACKING.csv" = true ->
  (1 <= N)%nat ->
  num_samples (Nat.iter N increment_samples sd) = Z.of_nat N - 1.
Proof.
  intros Hf Ho HN. destruct N as [|n]; [lia|].
  rewrite increment_samples_lines by assumption.
  unfold num_samples. rewrite getRowsCount_readSDfile. unfold SD.lines. simpl files.
  rewrite lookup_insert_eq. simpl. rewrite length_replicate. lia.
Qed.

(** C8 (what the code does).  After [reset_sample_counter], and whenever
    the tracking file is missing, [num_samples] returns [-1]. *)
Theorem num_samples_after_reset sd :
  num_samples (reset_sample_counter sd) = -1
  /\ (files sd !! "/TRACKING.csv" = None -> num_samples sd = -1).
Proof.
  split.
  - unfold num_samples, reset_sample_counter, SD.remove.
    rewrite getRowsCount_readSDfile. unfold SD.lines. simpl files.
    now rewrite lookup_delete_eq.
  - intros Hf. unfold num_samples. rewrite getRowsCount_readSDfile.
    unfold SD.lines. now rewrite Hf.
Qed.

Lemma write_all_appended outname (calls : list (string * string)) : forall sd ls,
  opens_for_write sd outname = true -> files sd !! outname = Some ls ->
  SD.lines outname (write_all outname calls sd) = (ls ++ map snd calls)%list.
Proof.
  induction calls as [|[h d] calls IH]; intros sd ls Ho Hf.
  - unfold SD.lines. simpl. now rewrite Hf, List.app_nil_r.
  - change (write_all outname ((h, d) :: calls) sd)
      with (write_all outname calls (write_to_csv h d outname sd)).
    rewrite (write_to_csv_appended h d outname sd ls Ho Hf).
    rewrite (IH _ (ls ++ [d])%list); [|exact Ho|apply lookup_insert_eq].
    now rewrite <- List.app_assoc.
Qed.

(** C10 (as amended).  When the file can be opened, [write_to_csv] writes
    the header line followed by the data line to a file that did not exist,
    and appends the data line alone to a file that did, leaving the lines
    already there and every other file as they were; a file built by a run
    of calls therefore holds the header of the first call and then one line
    per call.  When the file cannot be opened the call changes nothing. *)
Theorem write_to_csv_appends (outname : string) sd :
  if opens_for_write sd outname then
    (forall header data,
        SD.lines outname (write_to_csv header data outname sd)
        = (if SD.exists_ outname sd
           then SD.lines outname sd ++ [data]
           else [header; data])%list
        /\ (forall other, other <> outname ->
              files (write_to_csv header data outname sd) !! other
              = files sd !! other))
    /\ (forall header data calls,
          SD.exists_ outname sd = false ->
          SD.lines outname (write_all outname ((header, data) :: calls) sd)
          = header :: data :: map snd calls)
  else forall header data, write_to_csv header data outname sd = sd.
Proof.
  destruct (opens_for_write sd outname) eqn:Ho;
    [|intros header data; now apply write_to_csv_unopened].
  split.
  - intros header data. destruct (files sd !! outname) as [ls|] eqn:Hf.
    + rewrite (write_to_csv_appended _ _ _ _ ls Ho Hf).
      rewrite (proj2 (exists_true outname sd) (ex_intro _ ls Hf)).
      unfold SD.lines. simpl files. rewrite Hf, lookup_insert_eq. simpl.
      split; [reflexivity|].
      intros other Hother. now rewrite lookup_insert_ne.
    + rewrite (write_to_csv_created _ _ _ _ Ho Hf).
      rewrite (proj2 (exists_false outname sd) Hf).
      unfold SD.lines. simpl files. rewrite lookup_insert_eq. simpl.
      split; [reflexivity|].
      intros other Hother. now rewrite lookup_insert_ne.
  - intros header data calls Hex. apply exists_false in Hex.
    change (write_all outname ((header, data) :: calls) sd)
      with (write_all outname calls (write_to_csv header data outname sd)).
    rewrite (write_to_csv_created _ _ _ _ Ho Hex).
    rewrite (write_all_appended outname calls _ [header; data]);
      [reflexivity|exact Ho|apply lookup_insert_eq].
Qed.

End Tracking.

(** ** The theorems at work on concrete cards *)

Section Instances.

Import Exact.

(** The letters built for the default header: six, where the example in
    the doc comment of [prep_msg] has [ABC]. *)
Example hydros_letter_prefix : letter_prefix dictionary memory hydros = "FDEABC".
Proof. vm_compute. reflexivity. Qed.

Lemma timestamp_cut_not_reached_witness :
  Strict.datetime ["2001-01-10T01:11:05"; "2001-01-10T02:11:07"] "FDEABC:"
  = Strict.Returns "FDEABC:01011001"
  /\ (myHeader hydros <> EmptyString ->
      Strict.count_params hydros = Strict.Undefined Strict.delete_not_new)
  /\ (forall num_params,
        Strict.populate_header_index dictionary hydros Strict.unassigned num_params
        = Strict.Undefined Strict.unassigned_pointer)
  /\ forall m, Strict.prep_msg dictionary hydros two_rows <> Strict.Returns m.
Proof.
  apply (timestamp_cut_not_reached dictionary hydros two_rows
           ["2001-01-10T01:11:05"; "2001-01-10T02:11:07"]
           "2001" "01" "10" "01" "11" "05" "FDEABC:").
  - reflexivity.
  - reflexivity.
  - reflexivity.
  - reflexivity.
  - reflexivity.
Defined.

Lemma battery_memory_through_unassigned_witness :
  Strict.scaled dictionary [431 # 100; 428 # 100]%Q 1 Strict.unassigned 1
  = Strict.Undefined Strict.unassigned_pointer
  /\ (forall cells name code multiplier,
        0 <= 1 ->
        cells !! Z.to_nat 1 = Some (find_key dictionary name) ->
        lookup dictionary name = Some (code, multiplier) ->
        Strict.scaled dictionary [431 # 100; 428 # 100]%Q 1 (Strict.storage cells) 1
        = Strict.Returns
            (WString.of_long (round (fmul (428 # 100)%Q multiplier))))
  /\ forall m, Strict.prep_msg dictionary hydros two_rows <> Strict.Returns m.
Proof.
  apply (battery_memory_through_unassigned dictionary hydros two_rows
           [431 # 100; 428 # 100]%Q 1 1 (428 # 100)%Q).
  - lia.
  - reflexivity.
Defined.

Lemma unknown_column_reads_outside_witness :
  find_key dictionary "turbidity_ntu" = -1
  /\ Strict.letters dictionary (Strict.storage [5; 3; 4; 0; -1]) 5 EmptyString
     = Strict.Undefined Strict.outside_array
  /\ Strict.letters dictionary Strict.unassigned 5 EmptyString
     = Strict.Undefined Strict.unassigned_pointer
  /\ forall msg, Strict.prep_msg dictionary turbid turbid_row <> Strict.Returns msg.
Proof.
  destruct (unknown_column_reads_outside dictionary "turbidity_ntu")
    as (Hkey & Hletters & _ & Hmsg).
  - simpl. intuition discriminate.
  - split; [exact Hkey|]. split; [|split].
    + apply (Hletters (Strict.storage [5; 3; 4; 0; -1]) 4 5 EmptyString); [lia|].
      intros cells [= <-]. now rewrite Hkey.
    + apply (Hletters Strict.unassigned 4 5 EmptyString); [lia|]. discriminate.
    + apply Hmsg.
Defined.

Lemma empty_batch_reads_outside_witness :
  CSV.getRowsCount (CSV.readSDfile "/HOURLY.csv" header_only (CSV.new "sfffff" true ","))
  = 0
  /\ (forall msg,
        Strict.datetime
          (CSV.strings
             (CSV.readSDfile "/HOURLY.csv" header_only (CSV.new "sfffff" true ",")) 0)
          msg
        = Strict.Undefined Strict.outside_array)
  /\ (forall headerIndex column,
        Strict.scaled dictionary
          (floats (CSV.readSDfile "/HOURLY.csv" header_only (CSV.new "sfffff" true ","))
                  column)
          (CSV.getRowsCount
             (CSV.readSDfile "/HOURLY.csv" header_only (CSV.new "sfffff" true ","))
           - 1)
          headerIndex column
        = Strict.Undefined Strict.outside_array)
  /\ forall msg, Strict.prep_msg dictionary hydros header_only <> Strict.Returns msg.
Proof.
  apply (empty_batch_reads_outside dictionary hydros header_only "sfffff").
  vm_compute. reflexivity.
Defined.

Lemma num_samples_after_increments_witness :
  num_samples (Nat.iter 4 increment_samples blank) = Z.of_nat 4 - 1.
Proof.
  apply (num_samples_after_increments blank 4).
  - vm_compute. reflexivity.
  - reflexivity.
  - lia.
Defined.

(** The calls at the inputs named for them: the default header with one
    and with two buffered rows. *)
Example prep_msg_default_header :
  Strict.prep_msg dictionary hydros one_row
  = Strict.Undefined Strict.delete_not_new.
Proof. vm_compute. reflexivity. Qed.

Example num_hours_default_header :
  Strict.num_hours hydros two_rows = Strict.Undefined Strict.delete_not_new.
Proof. vm_compute. reflexivity. Qed.

(** One increment on a blank card, and the count is still zero. *)
Example one_sample_counts_zero :
  SD.lines "/TRACKING.csv" (increment_samples blank) = ["n"; "1"]
  /\ num_samples (increment_samples blank) = 0.
Proof. split; vm_compute; reflexivity. Qed.

(** On a card that opens no file, a call of [write_to_csv] appends
    nothing, neither to a new file nor to the lines at hand. *)
Lemma write_to_csv_locked_card :
  opens_for_write locked "/TRACKING.csv" = false
  /\ SD.lines "/TRACKING.csv" (write_to_csv "n" "1" "/TRACKING.csv" locked) = []
  /\ SD.lines "/TRACKING.csv" (write_to_csv "n" "1" "/TRACKING.csv" locked)
     <> (SD.lines "/TRACKING.csv" locked ++ ["1"])%list
  /\ SD.lines "/TRACKING.csv" (write_to_csv "n" "1" "/TRACKING.csv" locked)
     <> ["n"; "1"].
Proof.
  split; [reflexivity|]. split; [vm_compute; reflexivity|].
  split; vm_compute; discriminate.
Qed.

End Instances.

(** * Further properties of the code *)

(** ** The header *)

Lemma length_split_on (d : ascii) (s : string) :
  length (split_on d s) = S (count_char d s).
Proof.
  induction s as [|c s IH]; [reflexivity|]. simpl.
  destruct (Ascii.eqb c d); simpl; [now rewrite IH|].
  destruct (split_on d s); simpl in *; lia.
Qed.

Lemma split_on_concat (names : list string) :
  names <> [] ->
  Forall (fun name => split_on "," name = [name]) names ->
  split_on "," (String.concat "," names) = names.
Proof.
  intros Hne Hfree. induction Hfree as [|v names Hv Hnames IH]; [congruence|].
  destruct names as [|w names]; [exact Hv|].
  change (String.concat "," (v :: w :: names))
    with (v ++ String "," (String.concat "," (w :: names))).
  rewrite split_on_field by exact Hv. now rewrite IH.
Qed.

(** X1.  [count_params] returns 0 for the empty header.  For every other
    header its loop leaves the counter at one more than the number of commas
    of the header, whatever stands between the commas (a comma at either end
    or two commas in a row count an empty column), and the call then has no
    defined result: the counter is returned only after [delete &delim;]. *)
Theorem count_params_counts_then_deletes (this : RemoteLogger) :
  Strict.count_params this
  = match myHeader this with
    | EmptyString => Strict.Returns 0
    | String _ _ => Strict.Undefined Strict.delete_not_new
    end
  /\ (myHeader this <> EmptyString ->
      count_params_loop (String.length (myHeader this)) (myHeader this) 1
        (WString.indexOf "," 0 (myHeader this))
      = 1 + Z.of_nat (count_char "," (myHeader this))).
Proof.
  split; [apply count_params_outcome|]. intros Hne.
  pose proof (count_params_columns this) as Hc.
  rewrite columns_nonempty, length_split_on in Hc by assumption.
  unfold count_params in Hc.
  destruct (Z.ltb_spec (WString.len (myHeader this)) 1) as [Hlen|_].
  - exfalso. apply Hne, len_zero. lia.
  - rewrite Hc. lia.
Qed.

Section HeaderRoundTrip.

Context `{Float} (dict : Dictionary).

Lemma length_poke (cells : list Z) (i v : Z) : length (poke cells i v) = length cells.
Proof. unfold poke. destruct (0 <=? i); [apply length_insert|reflexivity]. Qed.

Lemma store_poke (cells : list Z) (column v : Z) :
  0 <= column < Z.of_nat (length cells) ->
  Strict.store (Strict.storage cells) column v
  = Strict.Returns (Strict.storage (poke cells column v)).
Proof.
  intros Hc. unfold Strict.store, Strict.elem, poke.
  destruct (Z.leb_spec 0 column); [|lia].
  destruct (lookup_lt_is_Some_2 cells (Z.to_nat column) ltac:(lia)) as [x ->].
  reflexivity.
Qed.

Lemma populate_loop_storage (n : nat) : forall myHeader column prevIndex cells,
  0 <= column -> column + Z.of_nat n <= Z.of_nat (length cells) ->
  Strict.populate_loop dict n myHeader column prevIndex (Strict.storage cells)
  = Strict.Returns
      (Strict.storage (fst (populate_loop dict n myHeader column prevIndex cells)),
       snd (populate_loop dict n myHeader column prevIndex cells))
  /\ length (fst (populate_loop dict n myHeader column prevIndex cells))
     = length cells.
Proof.
  induction n as [|n IH]; intros myHeader column prevIndex cells Hc Hn.
  - split; reflexivity.
  - cbn [Strict.populate_loop populate_loop]. rewrite store_poke by lia.
    cbv [mbind Strict.outcome_bind].
    destruct (IH myHeader (column + 1)
                (WString.indexOf "," (prevIndex + 1) myHeader)
                (poke cells column
                   (find_key dict
                      (WString.substring (prevIndex + 1)
                         (WString.indexOf "," (prevIndex + 1) myHeader) myHeader))))
      as [Hloop Hlen]; [lia|rewrite length_poke; lia|].
    rewrite Hloop. split; [reflexivity|]. now rewrite Hlen, length_poke.
Qed.

(** X2.  [populate_header_index] called with a pointer that was never
    assigned, as [prep_msg] calls it, is undefined whatever the number of
    columns.  Called on a header made by joining column names that hold no
    comma, with the number of those names and a pointer to that many cells,
    it returns after writing into every cell, whatever the cell held, the
    dictionary index [find_key] gives for the name of the cell's column. *)
Theorem populate_header_index_storage (this : RemoteLogger) (names : list string) :
  myHeader this = String.concat "," names ->
  myHeader this <> EmptyString ->
  Forall (fun name => split_on "," name = [name]) names ->
  (forall num_params : Z,
      Strict.populate_header_index dict this Strict.unassigned num_params
      = Strict.Undefined Strict.unassigned_pointer)
  /\ forall cells : list Z,
       length cells = length names ->
       Strict.populate_header_index dict this (Strict.storage cells)
         (Z.of_nat (length names))
       = Strict.Returns (Strict.storage (map (find_key dict) names)).
Proof.
  intros Hh Hne Hfree. split; [intros n; apply populate_unassigned|].
  intros cells Hlen.
  assert (Hnames : names <> []).
  { intros ->. now apply Hne. }
  assert (Hcols : columns this = names).
  { rewrite columns_nonempty by assumption. rewrite Hh. now apply split_on_concat. }
  assert (Hpos : (1 <= length names)%nat).
  { destruct names; [congruence|simpl; lia]. }
  pose proof (populate_header_index_columns dict this cells) as Hold.
  rewrite count_params_columns, Hcols in Hold. specialize (Hold Hlen).
  unfold populate_header_index in Hold. unfold Strict.populate_header_index.
  destruct (populate_loop_storage (Z.to_nat (Z.of_nat (length names) - 1))
              (myHeader this) 0 (-1) cells) as [Hloop Hl]; [lia|lia|].
  rewrite Hloop. cbv [mbind Strict.outcome_bind fst snd].
  destruct (populate_loop dict (Z.to_nat (Z.of_nat (length names) - 1))
              (myHeader this) 0 (-1) cells) as [filled prevIndex].
  simpl in Hl, Hold. simpl fst. simpl snd.
  rewrite store_poke by lia. now rewrite Hold.
Qed.

(** X3.  [find_key] returns the position of the first table entry equal to
    the key, character for character, and [-1] exactly when no entry is
    equal to it. *)
Theorem find_key_first_match (key : string) :
  (forall i : nat,
      find_key dict key = Z.of_nat i
      <-> HEADERS dict !! i = Some key
          /\ forall j, (j < i)%nat -> HEADERS dict !! j <> Some key)
  /\ (find_key dict key = -1 <-> ~ In key (HEADERS dict)).
Proof.
  split.
  - intros i. split.
    + rewrite find_key_spec.
      destruct (list_find _ _) as [[k x]|] eqn:Hf; [|lia].
      intros Hk. apply Nat2Z.inj in Hk. subst k.
      apply list_find_Some in Hf as (Hi & -> & Hbefore).
      split; [exact Hi|]. intros j Hj Hkey. now apply (Hbefore j key).
    + intros [Hi Hfirst]. now apply find_key_found.
  - rewrite find_key_spec. split.
    + destruct (list_find _ _) as [[k x]|] eqn:Hf; [lia|]. intros _ Hin.
      apply list_find_None in Hf. rewrite List.Forall_forall in Hf.
      now apply (Hf key).
    + intros Hno. destruct (list_find _ _) as [[k x]|] eqn:Hf; [|reflexivity].
      apply list_find_Some in Hf as (Hi & -> & _). exfalso. apply Hno.
      apply list_elem_of_In. eapply list_elem_of_lookup_2, Hi.
Qed.

End HeaderRoundTrip.

Lemma produce_csv_setting_loop_spec (n : nat) (setting : string) :
  produce_csv_setting_loop n setting
  = setting ++ string_of_list_ascii (replicate n "f"%char).
Proof.
  revert setting. induction n as [|n IH]; intros setting; simpl.
  - now rewrite sapp_empty_r.
  - rewrite IH, sapp_assoc. reflexivity.
Qed.

(** X4.  For every [n], also zero and below, [produce_csv_setting] builds
    the letter [s] followed by one [f] for every column after the first:
    its format never has fewer than one column, so the empty header, for
    which [count_params] returns 0, is given the one-column format [s]. *)
Theorem produce_csv_setting_format (n : Z) :
  produce_csv_setting n
  = String "s" (string_of_list_ascii (replicate (Z.to_nat (n - 1)) "f"%char))
  /\ Z.of_nat (String.length (produce_csv_setting n)) = Z.max 1 n.
Proof.
  unfold produce_csv_setting. rewrite produce_csv_setting_loop_spec.
  split; [reflexivity|].
  change ("s" ++ ?x) with (String "s" x). simpl String.length.
  rewrite length_string_of_list_ascii, length_replicate. lia.
Qed.

(** ** The files on the card, one beside the other *)

Section Files.

Implicit Types (sd : SDcard) (this : RemoteLogger).

Lemma write_to_csv_other header data outname sd (other : string) :
  other <> outname ->
  files (write_to_csv header data outname sd) !! other = files sd !! other.
Proof.
  intros Hother. destruct (opens_for_write sd outname) eqn:Ho.
  - destruct (files sd !! outname) as [ls|] eqn:Hf.
    + rewrite (write_to_csv_appended _ _ _ _ ls Ho Hf). simpl.
      now rewrite lookup_insert_ne.
    + rewrite (write_to_csv_created _ _ _ _ Ho Hf). simpl.
      now rewrite lookup_insert_ne.
  - now rewrite write_to_csv_unopened.
Qed.

Lemma num_samples_ext sd sd' :
  files sd !! "/TRACKING.csv" = files sd' !! "/TRACKING.csv" ->
  num_samples sd = num_samples sd'.
Proof.
  intros Hf. unfold num_samples. rewrite !getRowsCount_readSDfile.
  unfold SD.lines. now rewrite Hf.
Qed.

(** X8.  One call of [increment_samples] raises [num_samples] by one when
    the tracking file can be opened, and leaves it as it was when the file
    cannot be opened; this holds for a missing tracking file and for one
    that has its header line. *)
Theorem increment_samples_step sd :
  files sd !! "/TRACKING.csv" <> Some [] ->
  num_samples (increment_samples sd)
  = num_samples sd + (if opens_for_write sd "/TRACKING.csv" then 1 else 0).
Proof.
  intros Hne. unfold increment_samples.
  destruct (opens_for_write sd "/TRACKING.csv") eqn:Ho;
    [|rewrite write_to_csv_unopened by assumption; lia].
  unfold num_samples. rewrite !getRowsCount_readSDfile. unfold SD.lines.
  destruct (files sd !! "/TRACKING.csv") as [[|hdr rows]|] eqn:Hf; [congruence| |].
  - rewrite (write_to_csv_appended _ _ _ _ _ Ho Hf). simpl files.
    rewrite lookup_insert_eq. simpl. rewrite length_app. simpl. lia.
  - rewrite (write_to_csv_created _ _ _ _ Ho Hf). simpl files.
    now rewrite lookup_insert_eq.
Qed.

(** X9.  The sample counter depends on the tracking file alone:
    [num_samples] is not changed by [reset_hourly] nor by a line written
    with [write_to_csv] to any other file, and [increment_samples] and
    [reset_sample_counter] leave every file but the tracking file as it
    was. *)
Theorem sample_counter_apart sd :
  num_samples (reset_hourly sd) = num_samples sd
  /\ (forall header line outname,
        outname <> "/TRACKING.csv" ->
        num_samples (write_to_csv header line outname sd) = num_samples sd)
  /\ (forall other,
        other <> "/TRACKING.csv" ->
        files (increment_samples sd) !! other = files sd !! other
        /\ files (reset_sample_counter sd) !! other = files sd !! other).
Proof.
  split; [|split].
  - apply num_samples_ext. unfold reset_hourly, SD.remove. simpl.
    now rewrite lookup_delete_ne.
  - intros header line outname Hout. apply num_samples_ext.
    apply write_to_csv_other. congruence.
  - intros other Hother. split.
    + unfold increment_samples. now apply write_to_csv_other.
    + unfold reset_sample_counter, SD.remove. simpl.
      rewrite lookup_delete_ne; [reflexivity|congruence].
Qed.

(** X12.  The sample counter restarts at a reset: [N >= 1] increments
    after [reset_sample_counter] leave the tracking file with its header and
    [N] lines and [num_samples] at [N - 1], whatever the file held before
    the reset. *)
Theorem reset_then_increments sd (N : nat) :
  opens_for_write sd "/TRACKING.csv" = true ->
  (1 <= N)%nat ->
  SD.lines "/TRACKING.csv" (Nat.iter N increment_samples (reset_sample_counter sd))
  = "n" :: replicate N "1"
  /\ num_samples (Nat.iter N increment_samples (reset_sample_counter sd))
     = Z.of_nat N - 1.
Proof.
  intros Ho HN. destruct N as [|n]; [lia|].
  rewrite increment_samples_lines;
    [|unfold reset_sample_counter, SD.remove; simpl; apply lookup_delete_eq|exact Ho].
  unfold num_samples. rewrite getRowsCount_readSDfile. unfold SD.lines. simpl files.
  rewrite lookup_insert_eq. simpl. rewrite length_replicate. split; [reflexivity|lia].
Qed.

End Files.

(** ** The Hydros 21 reading *)

Section Hydros.

Implicit Types (s t : string) (c : ascii).

Lemma read_loop_spec (rx acc : string) :
  read_loop rx acc = acc ++ without_newlines rx.
Proof.
  revert acc. induction rx as [|c rx IH]; intros acc; simpl.
  - now rewrite sapp_empty_r.
  - destruct (Ascii.eqb c "010"); simpl; [apply IH|].
    destruct (Ascii.eqb c "013"); simpl; [apply IH|].
    rewrite IH, sapp_assoc. reflexivity.
Qed.

Lemma length_skip (n : nat) s :
  String.length (WString.skip n s) = (String.length s - n)%nat.
Proof.
  revert s. induction n as [|n IH]; intros [|c s]; simpl; try lia. apply IH.
Qed.

Lemma substring_from_skip (n : nat) s :
  WString.substring_from (Z.of_nat n) s = WString.skip n s.
Proof.
  unfold WString.substring_from, WString.substring.
  pose proof (len_nonneg s) as Hs.
  rewrite !to_unsigned_nonneg by lia.
  assert (Hlen : WString.len s = Z.of_nat (String.length s)) by reflexivity.
  assert (Hshort : (String.length s <= n)%nat -> WString.skip n s = EmptyString).
  { intros Hle. pose proof (length_skip n s) as Hl.
    destruct (WString.skip n s); [reflexivity|simpl in Hl; lia]. }
  destruct (Z.ltb_spec (WString.len s) (Z.of_nat n)).
  - rewrite Z.leb_refl. symmetry. apply Hshort. lia.
  - destruct (Z.leb_spec (WString.len s) (Z.of_nat n)).
    + symmetry. apply Hshort. lia.
    + rewrite Z.ltb_irrefl, Nat2Z.id.
      replace (Z.to_nat (WString.len s - Z.of_nat n))
        with (String.length (WString.skip n s)) by (rewrite length_skip; lia).
      apply keep_all.
Qed.

Lemma charAt_middle s c t :
  WString.charAt (WString.len s) (s ++ String c t) = c.
Proof.
  unfold WString.charAt. pose proof (len_nonneg s). pose proof (len_nonneg t).
  rewrite to_unsigned_nonneg by lia. rewrite len_app, len_cons.
  destruct (Z.leb_spec (WString.len s + (1 + WString.len t)) (WString.len s)); [lia|].
  rewrite to_nat_len. clear. induction s as [|a s IH]; [reflexivity|].
  rewrite sapp_cons. exact IH.
Qed.

Lemma setCharAt_middle s c c' t :
  WString.setCharAt (WString.len s) c' (s ++ String c t) = s ++ String c' t.
Proof.
  unfold WString.setCharAt. pose proof (len_nonneg s). pose proof (len_nonneg t).
  rewrite to_unsigned_nonneg by lia. rewrite len_app, len_cons.
  destruct (Z.ltb_spec (WString.len s) (WString.len s + (1 + WString.len t))); [|lia].
  rewrite to_nat_len. clear. induction s as [|a s IH]; [reflexivity|].
  rewrite !sapp_cons. simpl. now rewrite IH.
Qed.

Lemma replace_loop_spec t : forall s,
  replace_loop (String.length t) (WString.len s) (s ++ t) = s ++ plus_to_comma t.
Proof.
  induction t as [|c t IH]; intros s; [reflexivity|].
  cbn [String.length replace_loop plus_to_comma].
  rewrite charAt_middle.
  replace (WString.len s + 1) with (WString.len (s ++ String c EmptyString))
    by (rewrite len_app, len_cons; change (WString.len EmptyString) with 0; lia).
  destruct (Ascii.eqb c "+").
  - rewrite setCharAt_middle.
    replace (WString.len (s ++ String c EmptyString))
      with (WString.len (s ++ String "," EmptyString))
      by (rewrite !len_app, !len_cons; reflexivity).
    specialize (IH (s ++ String "," EmptyString)).
    rewrite !sapp_assoc in IH. exact IH.
  - specialize (IH (s ++ String c EmptyString)).
    rewrite !sapp_assoc in IH. exact IH.
Qed.

(** What [sample_hydros_M] returns, in one formula. *)
Lemma sample_hydros_M_spec (bus : SDI12) (sensor_address : Z) :
  sample_hydros_M bus sensor_address
  = let reading :=
      plus_to_comma
        (WString.skip 3
           (without_newlines (answer bus (WString.of_long sensor_address ++ "D0!")))) in
    if String.eqb reading EmptyString then "-9,-9,-9" else reading.
Proof.
  unfold sample_hydros_M. cbv zeta.
  rewrite !read_loop_spec, !sapp_empty_l.
  change 3 with (Z.of_nat 3). rewrite substring_from_skip.
  pose proof (replace_loop_spec
                (WString.skip 3
                   (without_newlines
                      (answer bus (WString.of_long sensor_address ++ "D0!"))))
                EmptyString) as Hr.
  rewrite !sapp_empty_l in Hr. change (WString.len EmptyString) with 0 in Hr.
  now rewrite Hr.
Qed.

Lemma plus_to_comma_chars s c :
  In c (list_ascii_of_string (plus_to_comma s)) ->
  c <> "+"%char /\ (c = ","%char \/ In c (list_ascii_of_string s)).
Proof.
  induction s as [|a s IH]; simpl; [tauto|].
  intros [Hc|Hc].
  - destruct (Ascii.eqb_spec a "+") as [->|Ha]; subst c.
    + split; [discriminate|now left].
    + split; [exact Ha|]. right. now left.
  - destruct (IH Hc) as [H1 [H2|H2]]; split; auto.
Qed.

Lemma skip_chars (n : nat) s c :
  In c (list_ascii_of_string (WString.skip n s)) -> In c (list_ascii_of_string s).
Proof.
  revert s. induction n as [|n IH]; intros [|a s]; simpl; auto.
Qed.

Lemma without_newlines_chars s c :
  In c (list_ascii_of_string (without_newlines s)) ->
  c <> "010"%char /\ c <> "013"%char.
Proof.
  induction s as [|a s IH]; simpl; [tauto|].
  destruct (Ascii.eqb_spec a "010") as [->|Hn]; simpl; [exact IH|].
  destruct (Ascii.eqb_spec a "013") as [->|Hr]; simpl; [exact IH|].
  intros [<-|Hc]; [now split|now apply IH].
Qed.

(** X13.  The reading [sample_hydros_M] returns is never empty and holds
    no [+], no line feed and no carriage return, whatever the bus
    answers. *)
Theorem sample_hydros_M_clean (bus : SDI12) (sensor_address : Z) :
  sample_hydros_M bus sensor_address <> EmptyString
  /\ forall c, In c (list_ascii_of_string (sample_hydros_M bus sensor_address)) ->
       c <> "+"%char /\ c <> "010"%char /\ c <> "013"%char.
Proof.
  rewrite sample_hydros_M_spec. cbv zeta.
  set (raw := answer bus _).
  destruct (String.eqb_spec (plus_to_comma (WString.skip 3 (without_newlines raw)))
              EmptyString) as [He|Hne].
  - split; [discriminate|]. intros c Hc. simpl in Hc.
    repeat (destruct Hc as [<-|Hc]; [repeat split; discriminate|]). destruct Hc.
  - split; [exact Hne|]. intros c Hc.
    destruct (plus_to_comma_chars _ _ Hc) as [Hplus [->|Hin]].
    + repeat split; discriminate.
    + apply skip_chars, without_newlines_chars in Hin. tauto.
Qed.

Lemma plus_to_comma_app s t :
  plus_to_comma (s ++ t) = plus_to_comma s ++ plus_to_comma t.
Proof.
  induction s as [|c s IH]; [reflexivity|]. rewrite sapp_cons. simpl.
  now rewrite IH.
Qed.

Lemma plus_to_comma_free s :
  split_on "+" s = [s] -> plus_to_comma s = s.
Proof.
  induction s as [|c s IH]; [reflexivity|]. simpl.
  destruct (Ascii.eqb c "+").
  - intros Hs. inversion Hs.
  - destruct (split_on "+" s) as [|f fs] eqn:Hf; [now apply split_on_nonempty in Hf|].
    intros [= -> ->]. now rewrite IH.
Qed.

Lemma plus_to_comma_concat (values : list string) :
  Forall (fun v => split_on "+" v = [v]) values ->
  plus_to_comma (String.concat "+" values) = String.concat "," values.
Proof.
  induction 1 as [|v values Hv Hvalues IH]; [reflexivity|].
  destruct values as [|w values]; [now apply plus_to_comma_free|].
  change (String.concat "+" (v :: w :: values))
    with (v ++ "+" ++ String.concat "+" (w :: values)).
  change (String.concat "," (v :: w :: values))
    with (v ++ "," ++ String.concat "," (w :: values)).
  rewrite !plus_to_comma_app, IH, (plus_to_comma_free v Hv). reflexivity.
Qed.

(** X14.  When the answer to the data command, line ends left out, is three
    leading characters followed by values joined by [+], the reading is
    those values joined by commas: cut at its commas it gives back the
    values, one CSV field each. *)
Theorem sample_hydros_M_values (bus : SDI12) (sensor_address : Z)
    (lead : string) (values : list string) :
  without_newlines (answer bus (WString.of_long sensor_address ++ "D0!"))
  = lead ++ String.concat "+" values ->
  String.length lead = 3%nat ->
  String.concat "+" values <> EmptyString ->
  Forall (fun v => split_on "+" v = [v]) values ->
  Forall (fun v => split_on "," v = [v]) values ->
  sample_hydros_M bus sensor_address = String.concat "," values
  /\ split_on "," (sample_hydros_M bus sensor_address) = values.
Proof.
  intros Hraw Hlead Hne Hplus Hcomma.
  assert (Hvalues : values <> []).
  { intros ->. now apply Hne. }
  assert (Hread : sample_hydros_M bus sensor_address = String.concat "," values).
  { rewrite sample_hydros_M_spec. cbv zeta. rewrite Hraw.
    rewrite <- Hlead, skip_app, (plus_to_comma_concat values Hplus).
    destruct (String.eqb_spec (String.concat "," values) EmptyString) as [He|_];
      [|reflexivity].
    exfalso. apply Hne. rewrite <- (plus_to_comma_concat values Hplus) in He.
    destruct (String.concat "+" values); [reflexivity|discriminate]. }
  split; [exact Hread|]. rewrite Hread. now apply split_on_concat.
Qed.

(** X15.  When the answer to the data command holds, line ends left out,
    three characters or fewer, and so when the sensor does not answer at
    all, the reading is the marker [-9,-9,-9]: three fields [-9]. *)
Theorem sample_hydros_M_no_reading (bus : SDI12) (sensor_address : Z) :
  (String.length
     (without_newlines (answer bus (WString.of_long sensor_address ++ "D0!"))) <= 3)%nat ->
  sample_hydros_M bus sensor_address = "-9,-9,-9"
  /\ split_on "," (sample_hydros_M bus sensor_address) = ["-9"; "-9"; "-9"].
Proof.
  intros Hshort.
  assert (Hread : sample_hydros_M bus sensor_address = "-9,-9,-9").
  { rewrite sample_hydros_M_spec. cbv zeta.
    pose proof (length_skip 3
                  (without_newlines
                     (answer bus (WString.of_long sensor_address ++ "D0!")))) as Hl.
    destruct (WString.skip 3 _); [reflexivity|simpl in Hl; lia]. }
  split; [exact Hread|]. now rewrite Hread.
Qed.

End Hydros.

(** ** The LED, the modem and the clock *)

Section BoardFacts.

Implicit Types (b : Board) (p : Pins) (t : list io).

Lemma pin_after_app pin before t1 t2 :
  pin_after pin before (t1 ++ t2)%list = pin_after pin (pin_after pin before t1) t2.
Proof. unfold pin_after. apply fold_left_app. Qed.

Lemma waited_app t1 t2 : waited (t1 ++ t2)%list = waited t1 + waited t2.
Proof.
  induction t1 as [|e t1 IH]; simpl; [reflexivity|].
  destruct e; rewrite IH; lia.
Qed.

Lemma blinky_loop_spec (k : nat) (led high_ms low_ms : Z) b :
  blinky_loop k led high_ms low_ms b
  = (tt, {| trace := trace b ++ pulses k led high_ms low_ms;
            modem_codes := modem_codes b; modem_times := modem_times b;
            modem_calls := modem_calls b; sent := sent b; rtc := rtc b |}).
Proof.
  revert b. induction k as [|k IH]; intros [tr mc mt n st r]; simpl.
  - unfold ret. now rewrite List.app_nil_r.
  - unfold bind, digitalWrite, delay, emit. simpl. rewrite IH. simpl.
    now rewrite <- !List.app_assoc.
Qed.

Lemma pulses_other (k : nat) (led high_ms low_ms pin : Z) (before : level) :
  pin <> led -> pin_after pin before (pulses k led high_ms low_ms) = before.
Proof.
  intros Hpin. induction k as [|k IH]; [reflexivity|].
  unfold pin_after in *. simpl.
  destruct (Z.eqb_spec led pin); [congruence|]. exact IH.
Qed.

Lemma pulses_led (k : nat) (led high_ms low_ms : Z) (before : level) :
  pin_after led before (pulses k led high_ms low_ms)
  = match k with O => before | S _ => LOW end.
Proof.
  revert before. induction k as [|k IH]; intros before; [reflexivity|].
  unfold pin_after in *. simpl. rewrite Z.eqb_refl. rewrite IH. now destruct k.
Qed.

Lemma pulses_waited (k : nat) (led high_ms low_ms : Z) :
  waited (pulses k led high_ms low_ms)
  = Z.of_nat k * (WString.to_unsigned high_ms + WString.to_unsigned low_ms).
Proof.
  induction k as [|k IH]; [reflexivity|].
  unfold waited in *. simpl fold_right. rewrite IH. lia.
Qed.

Lemma pulses_raised (k : nat) (led high_ms low_ms : Z) :
  raised led (pulses k led high_ms low_ms) = k.
Proof.
  induction k as [|k IH]; [reflexivity|].
  unfold raised in *. simpl. rewrite Z.eqb_refl. simpl. now rewrite IH.
Qed.

(** X16.  [blinky] raises the LED pin [n] times (not at all for [n <= 0]),
    writes to no other pin, leaves the LED low after the last flash, waits
    [n * (high_ms + low_ms) + btw_ms] milliseconds in all, each time taken
    as the [unsigned long] that [delay] receives, and touches neither the
    modem nor the clock. *)
Theorem blinky_flashes p (n high_ms low_ms btw_ms : Z) b :
  exists t,
    trace (snd (blinky p n high_ms low_ms btw_ms b)) = (trace b ++ t)%list
    /\ raised (ledPin p) t = Z.to_nat n
    /\ (forall before, pin_after (ledPin p) before t = if 0 <? n then LOW else before)
    /\ (forall pin before, pin <> ledPin p -> pin_after pin before t = before)
    /\ waited t
       = Z.max 0 n * (WString.to_unsigned high_ms + WString.to_unsigned low_ms)
         + WString.to_unsigned btw_ms
    /\ sent (snd (blinky p n high_ms low_ms btw_ms b)) = sent b
    /\ modem_calls (snd (blinky p n high_ms low_ms btw_ms b)) = modem_calls b
    /\ rtc (snd (blinky p n high_ms low_ms btw_ms b)) = rtc b.
Proof.
  exists (pulses (Z.to_nat n) (ledPin p) high_ms low_ms
            ++ [Delay (WString.to_unsigned btw_ms)])%list.
  unfold blinky, bind. rewrite blinky_loop_spec. unfold delay, emit. simpl.
  split; [now rewrite <- List.app_assoc|].
  split.
  { unfold raised. rewrite List.filter_app, length_app. simpl.
    pose proof (pulses_raised (Z.to_nat n) (ledPin p) high_ms low_ms) as Hr.
    unfold raised in Hr. rewrite Hr. lia. }
  split.
  { intros before. rewrite pin_after_app, pulses_led. simpl.
    destruct (Z.ltb_spec 0 n).
    - destruct (Z.to_nat n) eqn:Hn; [lia|reflexivity].
    - now replace (Z.to_nat n) with 0%nat by lia. }
  split.
  { intros pin before Hpin. rewrite pin_after_app, pulses_other by assumption.
    reflexivity. }
  split.
  { rewrite waited_app, pulses_waited. simpl. lia. }
  repeat split.
Qed.

Ltac board_cases :=
  repeat match goal with
         | |- context [if ?c then _ else _] => destruct c eqn:?; simpl
         end.

(** X17.  [send_msg] hands the text to the modem once when the first
    attempt answers [ISBD_SUCCESS], and a second time, after starting the
    modem again, when it does not; it sends nothing else, and the code it
    returns is the modem's answer to the last attempt. *)
Theorem send_msg_attempts p (my_msg : string) b :
  let k := modem_calls b in
  let first := if modem_codes b k =? ISBD_IS_ASLEEP then (k + 2)%nat else (k + 1)%nat in
  if modem_codes b first =? ISBD_SUCCESS
  then fst (send_msg p my_msg b) = ISBD_SUCCESS
       /\ sent (snd (send_msg p my_msg b)) = (sent b ++ [my_msg])%list
  else fst (send_msg p my_msg b) = modem_codes b (first + 2)
       /\ sent (snd (send_msg p my_msg b)) = (sent b ++ [my_msg; my_msg])%list.
Proof.
  destruct b as [tr mc mt n st r]. cbv zeta. simpl modem_calls. simpl modem_codes.
  unfold send_msg, bind, digitalWrite, delay, emit, modem_begin, modem_sendSBDText,
    modem_reply, rtc_now, sync_clock, modem_getSystemTime, rtc_adjust, bind, ret.
  simpl.
  destruct (mc n =? ISBD_IS_ASLEEP) eqn:Hasleep; simpl.
  - replace (n + 2)%nat with (S (S n)) by lia.
    destruct (mc (S (S n)) =? ISBD_SUCCESS) eqn:Hfirst; simpl.
    + apply Z.eqb_eq in Hfirst. board_cases; (split; [exact Hfirst|reflexivity]).
    + board_cases; (split; [f_equal; lia|now rewrite <- List.app_assoc]).
  - replace (n + 1)%nat with (S n) by lia.
    destruct (mc (S n) =? ISBD_SUCCESS) eqn:Hfirst; simpl.
    + apply Z.eqb_eq in Hfirst. board_cases; (split; [exact Hfirst|reflexivity]).
    + board_cases; (split; [f_equal; lia|now rewrite <- List.app_assoc]).
Qed.

(** X18.  On every path [send_msg] raises the modem's sleep pin, waits two
    seconds, and lowers the pin again before it returns; it writes to no
    other pin. *)
Theorem send_msg_sleep_pin p (my_msg : string) b :
  trace (snd (send_msg p my_msg b))
  = (trace b ++ [DigitalWrite (IridSlpPin p) HIGH; Delay 2000;
                 DigitalWrite (IridSlpPin p) LOW])%list.
Proof.
  destruct b as [tr mc mt n st r].
  unfold send_msg, bind, digitalWrite, delay, emit, modem_begin, modem_sendSBDText,
    modem_reply, rtc_now, sync_clock, modem_getSystemTime, rtc_adjust, bind, ret.
  simpl. board_cases; now rewrite <- ?List.app_assoc.
Qed.

(** X19.  [send_msg] asks the modem for the time only when the clock reads
    hour 12 on a day of the month that is a multiple of five, after its one
    or two attempts to send.  The clock is set, to the modem's time with the
    year counted from 1900 and the month from one, exactly when that query
    answers [ISBD_SUCCESS]; in every other case the clock is left as it
    was. *)
Theorem send_msg_clock p (my_msg : string) b :
  let k := modem_calls b in
  let first := if modem_codes b k =? ISBD_IS_ASLEEP then (k + 2)%nat else (k + 1)%nat in
  let asked := if modem_codes b first =? ISBD_SUCCESS
               then (first + 1)%nat else (first + 3)%nat in
  rtc (snd (send_msg p my_msg b))
  = if (hour (rtc b) =? 12) && (day (rtc b) mod 5 =? 0)
       && (modem_codes b asked =? ISBD_SUCCESS)
    then date_of (modem_times b asked)
    else rtc b.
Proof.
  destruct b as [tr mc mt n st r]. cbv zeta. simpl modem_calls. simpl modem_codes.
  simpl modem_times. simpl rtc at 2 3 4.
  unfold send_msg, bind, digitalWrite, delay, emit, modem_begin, modem_sendSBDText,
    modem_reply, rtc_now, sync_clock, modem_getSystemTime, rtc_adjust, bind, ret.
  simpl.
  assert (E1 : (n + 1 = S n)%nat) by lia.
  assert (E2 : (n + 2 = S (S n))%nat) by lia.
  assert (E3 : (n + 3 = S (S (S n)))%nat) by lia.
  destruct (mc n =? ISBD_IS_ASLEEP) eqn:Hasleep; simpl;
    rewrite ?E2, ?E1;
    match goal with
    | |- context [if mc ?i =? ISBD_SUCCESS then (_ + _)%nat else _] =>
        destruct (mc i =? ISBD_SUCCESS) eqn:Hfirst
    end; simpl; rewrite ?E1, ?E3;
    (destruct ((hour r =? 12) && (day r mod 5 =? 0)); simpl; [|reflexivity]);
    match goal with
    | |- context [if mc ?i =? ISBD_SUCCESS then date_of _ else _] =>
        now destruct (mc i =? ISBD_SUCCESS)
    end.
Qed.

Lemma signal_quality_loop_spec (k : nat) b :
  exists j c : nat,
    signal_quality_loop k b
    = (forallb (fun i => modem_codes b i =? ISBD_SUCCESS) (seq (modem_calls b) k),
       {| trace := trace b ++ repeat (Delay 1000) j;
          modem_codes := modem_codes b; modem_times := modem_times b;
          modem_calls := c; sent := sent b; rtc := rtc b |})
    /\ (j <= k)%nat
    /\ (forallb (fun i => modem_codes b i =? ISBD_SUCCESS) (seq (modem_calls b) k) = true ->
        c = (modem_calls b + k)%nat).
Proof.
  revert b. induction k as [|k IH]; intros [tr mc mt n st r].
  - exists 0%nat, n. simpl. rewrite List.app_nil_r. repeat split; lia.
  - simpl signal_quality_loop.
    unfold bind, modem_getSignalQuality, modem_reply, bind, ret, delay, emit.
    cbn [fst snd trace modem_codes modem_times modem_calls sent rtc seq forallb].
    destruct (mc n =? ISBD_SUCCESS) eqn:Hn; cbn [negb andb].
    + match goal with
      | |- context [signal_quality_loop k ?x] =>
          destruct (IH x) as (j & c & Heq & Hj & Hc); rewrite Heq
      end.
      cbn [fst snd trace modem_codes modem_times modem_calls sent rtc] in *.
      exists (S j), c. rewrite <- List.app_assoc. repeat split; [lia|].
      intros Hall. rewrite (Hc Hall). lia.
    + exists 0%nat, (S n). rewrite List.app_nil_r. repeat split; [lia|discriminate].
Qed.

(** X20.  [irid_test] hands ["Hello world! "] followed by the caller's text
    to the modem, once, exactly when the twelve modem calls before it
    (starting the modem, the firmware version, ten signal-quality queries)
    all answer [ISBD_SUCCESS]; as soon as one of them fails it returns
    having sent nothing.  Only after the send (whatever its answer) is the
    clock set from the modem's time, and then only when that query
    succeeds. *)
Theorem irid_test_sends p (msg : string) b :
  let ok := forallb (fun i => modem_codes b i =? ISBD_SUCCESS)
                    (seq (modem_calls b) 12) in
  let asked := (modem_calls b + 13)%nat in
  sent (snd (irid_test p msg b))
  = (if ok then sent b ++ [("Hello world! " ++ msg)%string] else sent b)%list
  /\ rtc (snd (irid_test p msg b))
     = (if ok && (modem_codes b asked =? ISBD_SUCCESS)
        then date_of (modem_times b asked) else rtc b).
Proof.
  destruct b as [tr mc mt n st r]. cbv zeta.
  pose proof (signal_quality_loop_spec 10) as Hloop.
  unfold irid_test.
  remember (signal_quality_loop 10) as loop eqn:Eloop.
  unfold bind, digitalWrite, delay, emit, modem_begin, modem_getFirmwareVersion,
    modem_sendSBDText, modem_reply, sync_clock, modem_getSystemTime, rtc_adjust,
    bind, ret.
  cbn [fst snd trace modem_codes modem_times modem_calls sent rtc].
  change (seq n 12) with (n :: S n :: seq (S (S n)) 10).
  cbn [forallb].
  destruct (mc n =? ISBD_SUCCESS) eqn:H0; cbn [negb andb]; [|split; reflexivity].
  cbn [fst snd trace modem_codes modem_times modem_calls sent rtc].
  destruct (mc (S n) =? ISBD_SUCCESS) eqn:H1; cbn [negb andb]; [|split; reflexivity].
  cbn [fst snd trace modem_codes modem_times modem_calls sent rtc].
  match goal with
  | |- context [loop ?x] => destruct (Hloop x) as (j & c & Heq & Hj & Hc); rewrite Heq
  end.
  cbn [fst snd trace modem_codes modem_times modem_calls sent rtc] in *.
  destruct (forallb (fun i => mc i =? ISBD_SUCCESS) (seq (S (S n)) 10)) eqn:Hall;
    cbn [negb andb fst snd trace modem_codes modem_times modem_calls sent rtc];
    [|split; reflexivity].
  rewrite (Hc eq_refl).
  replace (S (S n) + 10 + 1)%nat with (n + 13)%nat by lia.
  replace (S (S (S n) + 10))%nat with (n + 13)%nat by lia.
  unfold modem_reply.
  cbn [fst snd trace modem_codes modem_times modem_calls sent rtc].
  destruct (mc (n + 13)%nat =? ISBD_SUCCESS); split; reflexivity.
Qed.

(** X21.  [irid_test] raises the modem's sleep pin and never lowers it: all
    it does on the pins is that one write, followed by the two-second wait
    and one second after each signal-quality query that succeeded, at most
    ten.  Unlike [send_msg] it leaves the modem switched on, also when it
    gives up early. *)
Theorem irid_test_leaves_modem_on p (msg : string) b :
  exists j : nat,
    (j <= 10)%nat
    /\ trace (snd (irid_test p msg b))
       = (trace b ++ DigitalWrite (IridSlpPin p) HIGH :: Delay 2000
                  :: repeat (Delay 1000) j)%list.
Proof.
  destruct b as [tr mc mt n st r].
  pose proof (signal_quality_loop_spec 10) as Hloop.
  unfold irid_test.
  remember (signal_quality_loop 10) as loop eqn:Eloop.
  unfold bind, digitalWrite, delay, emit, modem_begin, modem_getFirmwareVersion,
    modem_sendSBDText, modem_reply, sync_clock, modem_getSystemTime, rtc_adjust,
    bind, ret.
  cbn [fst snd trace modem_codes modem_times modem_calls sent rtc].
  destruct (mc n =? ISBD_SUCCESS) eqn:H0; cbn [negb].
  2:{ exists 0%nat. split; [lia|]. cbn [trace snd repeat].
      now rewrite <- List.app_assoc. }
  cbn [fst snd trace modem_codes modem_times modem_calls sent rtc].
  destruct (mc (S n) =? ISBD_SUCCESS) eqn:H1; cbn [negb].
  2:{ exists 0%nat. split; [lia|]. cbn [trace snd repeat].
      now rewrite <- List.app_assoc. }
  cbn [fst snd trace modem_codes modem_times modem_calls sent rtc].
  match goal with
  | |- context [loop ?x] => destruct (Hloop x) as (j & c & Heq & Hj & Hc); rewrite Heq
  end.
  cbn [fst snd trace modem_codes modem_times modem_calls sent rtc] in *.
  exists j. split; [exact Hj|].
  destruct (forallb (fun i => mc i =? ISBD_SUCCESS) (seq (S (S n)) 10));
    cbn [negb fst snd trace modem_codes modem_times modem_calls sent rtc].
  - unfold modem_reply.
    cbn [fst snd trace modem_codes modem_times modem_calls sent rtc].
    board_cases; simpl; rewrite <- !List.app_assoc; reflexivity.
  - now rewrite <- !List.app_assoc.
Qed.

End BoardFacts.

(** ** Instances of the properties above *)

Section FurtherInstances.

Import Exact.

Lemma populate_header_index_storage_witness :
  (forall num_params : Z,
      Strict.populate_header_index dictionary hydros Strict.unassigned num_params
      = Strict.Undefined Strict.unassigned_pointer)
  /\ forall cells : list Z,
       length cells = 6%nat ->
       Strict.populate_header_index dictionary hydros (Strict.storage cells) 6
       = Strict.Returns (Strict.storage [5; 3; 4; 0; 1; 2]).
Proof.
  apply (populate_header_index_storage dictionary hydros
           ["datetime"; "batt_v"; "memory"; "water_level_mm"; "water_temp_c";
            "water_ec_dcm"]).
  - reflexivity.
  - discriminate.
  - repeat constructor.
Defined.

Lemma increment_samples_step_witness :
  num_samples (increment_samples blank) = num_samples blank + 1.
Proof.
  apply (increment_samples_step blank). vm_compute. discriminate.
Defined.

Lemma reset_then_increments_witness :
  SD.lines "/TRACKING.csv"
    (Nat.iter 3 increment_samples (reset_sample_counter two_rows))
  = ["n"; "1"; "1"; "1"]
  /\ num_samples (Nat.iter 3 increment_samples (reset_sample_counter two_rows)) = 2.
Proof.
  apply (reset_then_increments two_rows 3).
  - reflexivity.
  - lia.
Defined.

Lemma sample_hydros_M_values_witness :
  sample_hydros_M probe 0 = "105,22.3,0"
  /\ split_on "," (sample_hydros_M probe 0) = ["105"; "22.3"; "0"].
Proof.
  apply (sample_hydros_M_values probe 0 "00+" ["105"; "22.3"; "0"]).
  - reflexivity.
  - reflexivity.
  - discriminate.
  - repeat constructor.
  - repeat constructor.
Defined.

Lemma sample_hydros_M_no_reading_witness :
  sample_hydros_M silent 0 = "-9,-9,-9"
  /\ split_on "," (sample_hydros_M silent 0) = ["-9"; "-9"; "-9"].
Proof.
  apply (sample_hydros_M_no_reading silent 0). simpl. lia.
Defined.

End FurtherInstances.
